(** * Unscented Kalman filter of [src/ukf.cpp], embedded over the real numbers

    The filter ([class UKF]) is embedded shallowly: every member function
    becomes a function on a record holding the object's fields, and every
    [double] is idealised as a real number (exact arithmetic), the setting
    in which the specification states its algebraic properties.  A [float]
    variable holds a real number rounded to single precision.  Rounding of
    [double] operations, infinities and NaN are outside this model.

    Eigen's dynamically sized [VectorXd]/[MatrixXd] are indexed functions;
    the dimensions, which the program fixes through [n_x_] and [n_aug_], are
    passed to the operations that iterate over them.  Entries outside a
    dimension are never read by the program. *)

From Stdlib Require Import Reals Lra Lia List ZArith Bool.
From Equations Require Import Equations.
Import ListNotations.

Open Scope R_scope.

(** ** Dense linear algebra (the part of Eigen the filter uses) *)

Module Eigen.

Definition VectorXd := nat -> R.
Definition MatrixXd := nat -> nat -> R.

(** [for (int i = lo; i < hi; i++) body] as a fold over the index range. *)
Definition for_range {S : Type} (lo hi : nat) (body : nat -> S -> S) (s : S) : S :=
  fold_left (fun acc i => body i acc) (seq lo (hi - lo)) s.

(** Sum of [f 0 .. f (n-1)], the inner product loop of a matrix product. *)
Fixpoint sum_n (n : nat) (f : nat -> R) : R :=
  match n with
  | O => 0
  | S k => sum_n k f + f k
  end.

Definition vzero : VectorXd := fun _ => 0.
Definition mzero : MatrixXd := fun _ _ => 0.

(** [v(i) = a] and [M(i,j) = a]. *)
Definition vset (v : VectorXd) (i : nat) (a : R) : VectorXd :=
  fun k => if Nat.eqb k i then a else v k.
Definition mset (M : MatrixXd) (i j : nat) (a : R) : MatrixXd :=
  fun r c => if Nat.eqb r i && Nat.eqb c j then a else M r c.

(** [M.col(j)] read, and [M.col(j) = v] write. *)
Definition col (M : MatrixXd) (j : nat) : VectorXd := fun r => M r j.
Definition set_col (M : MatrixXd) (j : nat) (v : VectorXd) : MatrixXd :=
  fun r c => if Nat.eqb c j then v r else M r c.

(** [v << a0, a1, ...] and the row-major [M << a00, a01, ...] for a matrix
    with [cols] columns. *)
Definition comma_init (l : list R) : VectorXd := fun i => nth i l 0.
Definition comma_init_mat (cols : nat) (l : list R) : MatrixXd :=
  fun r c => if Nat.ltb c cols then nth (r * cols + c) l 0 else 0.

(** [dst.head(n) = src] and [dst.topLeftCorner(n,m) = src]. *)
Definition set_head (n : nat) (dst src : VectorXd) : VectorXd :=
  fun i => if Nat.ltb i n then src i else dst i.
Definition set_topLeftCorner (n m : nat) (dst src : MatrixXd) : MatrixXd :=
  fun r c => if Nat.ltb r n && Nat.ltb c m then src r c else dst r c.

Definition vadd (u v : VectorXd) : VectorXd := fun i => u i + v i.
Definition vsub (u v : VectorXd) : VectorXd := fun i => u i - v i.
Definition vscale (a : R) (v : VectorXd) : VectorXd := fun i => a * v i.
Definition madd (A B : MatrixXd) : MatrixXd := fun r c => A r c + B r c.
Definition msub (A B : MatrixXd) : MatrixXd := fun r c => A r c - B r c.
Definition mscale (a : R) (A : MatrixXd) : MatrixXd := fun r c => a * A r c.

(** [setIdentity()] / [MatrixXd::Identity(n,n)]: ones on the diagonal, also
    for a rectangular matrix. *)
Definition identity : MatrixXd := fun r c => if Nat.eqb r c then 1 else 0.

Definition transpose (A : MatrixXd) : MatrixXd := fun r c => A c r.

(** [A * B] with inner dimension [k], and [A * v] with [k] columns. *)
Definition mmul (k : nat) (A B : MatrixXd) : MatrixXd :=
  fun r c => sum_n k (fun l => A r l * B l c).
Definition mvmul (k : nat) (A : MatrixXd) (v : VectorXd) : VectorXd :=
  fun r => sum_n k (fun l => A r l * v l).

(** [u * v.transpose()] and [u.transpose() * v] (over [k] entries). *)
Definition outer (u v : VectorXd) : MatrixXd := fun r c => u r * v c.
Definition dot (k : nat) (u v : VectorXd) : R := sum_n k (fun l => u l * v l).
(** [u.transpose() * A], a row vector, for [u] of size [k]. *)
Definition vmmul (k : nat) (u : VectorXd) (A : MatrixXd) : VectorXd :=
  fun c => sum_n k (fun l => u l * A l c).

(** Deleting row [i] and column [j]. *)
Definition minor (A : MatrixXd) (i j : nat) : MatrixXd :=
  fun r c => A (if Nat.ltb r i then r else S r) (if Nat.ltb c j then c else S c).

(** Determinant of the leading [n] x [n] block, expanded along row 0. *)
Fixpoint det (n : nat) (A : MatrixXd) : R :=
  match n with
  | O => 1
  | S k => sum_n (S k) (fun j => (-1) ^ j * A O j * det k (minor A 0 j))
  end.

(** [A.inverse()] for an [n] x [n] matrix.  Eigen's routine lies outside the
    repository; it is modelled by the inverse it computes, written as the
    adjugate over the determinant.  For a singular matrix there is no
    inverse; the value here is then the adjugate times [/ 0]. *)
Definition inverse (n : nat) (A : MatrixXd) : MatrixXd :=
  fun r c => (-1) ^ (r + c) * det (n - 1) (minor A c r) / det n A.

(** [A.llt().matrixL()] for an [n] x [n] matrix: the lower-triangular
    Cholesky factor, column by column.  Eigen's routine lies outside the
    repository; it is modelled by the Cholesky recurrence it implements,
    which is the factor whenever [A] is symmetric positive definite. *)
Definition llt_column (A : MatrixXd) (j : nat) (L : MatrixXd) : MatrixXd :=
  let d := sqrt (A j j - sum_n j (fun k => L j k * L j k)) in
  fun r c =>
    if Nat.eqb c j then
      if Nat.ltb r j then 0
      else if Nat.eqb r j then d
      else (A r j - sum_n j (fun k => L r k * L j k)) / d
    else L r c.
Definition llt_matrixL (n : nat) (A : MatrixXd) : MatrixXd :=
  for_range 0 n (llt_column A) mzero.

(** [atan2(y, x)] of the C library, from the arc tangent. *)
Definition atan2 (y x : R) : R :=
  if Rlt_dec 0 x then atan (y / x)
  else if Rlt_dec x 0 then
    if Rlt_dec y 0 then atan (y / x) - PI else atan (y / x) + PI
  else if Rlt_dec 0 y then PI / 2
  else if Rlt_dec y 0 then - (PI / 2)
  else 0.

End Eigen.
Import Eigen.

(** ** Data model *)

(** Modelled from the spec: [MeasurementPackage] is declared in a header that
    is not part of the sources at hand.  A measurement carries a timestamp in
    microseconds, a sensor kind and its raw values (2 for lidar, 3 for
    radar); [OTHER] stands for any kind that is neither [LASER] nor [RADAR],
    the case both dispatch chains of [ProcessMeasurement] report. *)
Inductive SensorType := LASER | RADAR | OTHER.

Record MeasurementPackage := {
  timestamp_ : Z;
  sensor_type_ : SensorType;
  raw_measurements_ : VectorXd
}.

(** The fields of [class UKF] that [ukf.cpp] reads or writes. *)
Record UKF := {
  is_initialized_ : bool;
  use_laser_ : bool;
  use_radar_ : bool;
  x_ : VectorXd;
  P_ : MatrixXd;
  Xsig_pred_ : MatrixXd;
  time_us_ : Z;
  std_a_ : R;
  std_yawdd_ : R;
  std_laspx_ : R;
  std_laspy_ : R;
  std_radr_ : R;
  std_radphi_ : R;
  std_radrd_ : R;
  weights_ : VectorXd;
  n_x_ : nat;
  n_aug_ : nat;
  lambda_ : R;
  NIS_radar_ : R;
  NIS_laser_ : R;
  H_laser_ : MatrixXd;
  R_laser_ : MatrixXd;
  R_radar_ : MatrixXd
}.

(** Assignment to one field. *)
Definition set_is_initialized_ (u : UKF) (b : bool) : UKF :=
  {| is_initialized_ := b; use_laser_ := use_laser_ u; use_radar_ := use_radar_ u;
     x_ := x_ u; P_ := P_ u; Xsig_pred_ := Xsig_pred_ u; time_us_ := time_us_ u;
     std_a_ := std_a_ u; std_yawdd_ := std_yawdd_ u; std_laspx_ := std_laspx_ u;
     std_laspy_ := std_laspy_ u; std_radr_ := std_radr_ u; std_radphi_ := std_radphi_ u;
     std_radrd_ := std_radrd_ u; weights_ := weights_ u; n_x_ := n_x_ u; n_aug_ := n_aug_ u;
     lambda_ := lambda_ u; NIS_radar_ := NIS_radar_ u; NIS_laser_ := NIS_laser_ u;
     H_laser_ := H_laser_ u; R_laser_ := R_laser_ u; R_radar_ := R_radar_ u |}.

Definition set_x_ (u : UKF) (v : VectorXd) : UKF :=
  {| is_initialized_ := is_initialized_ u; use_laser_ := use_laser_ u; use_radar_ := use_radar_ u;
     x_ := v; P_ := P_ u; Xsig_pred_ := Xsig_pred_ u; time_us_ := time_us_ u;
     std_a_ := std_a_ u; std_yawdd_ := std_yawdd_ u; std_laspx_ := std_laspx_ u;
     std_laspy_ := std_laspy_ u; std_radr_ := std_radr_ u; std_radphi_ := std_radphi_ u;
     std_radrd_ := std_radrd_ u; weights_ := weights_ u; n_x_ := n_x_ u; n_aug_ := n_aug_ u;
     lambda_ := lambda_ u; NIS_radar_ := NIS_radar_ u; NIS_laser_ := NIS_laser_ u;
     H_laser_ := H_laser_ u; R_laser_ := R_laser_ u; R_radar_ := R_radar_ u |}.

Definition set_P_ (u : UKF) (M : MatrixXd) : UKF :=
  {| is_initialized_ := is_initialized_ u; use_laser_ := use_laser_ u; use_radar_ := use_radar_ u;
     x_ := x_ u; P_ := M; Xsig_pred_ := Xsig_pred_ u; time_us_ := time_us_ u;
     std_a_ := std_a_ u; std_yawdd_ := std_yawdd_ u; std_laspx_ := std_laspx_ u;
     std_laspy_ := std_laspy_ u; std_radr_ := std_radr_ u; std_radphi_ := std_radphi_ u;
     std_radrd_ := std_radrd_ u; weights_ := weights_ u; n_x_ := n_x_ u; n_aug_ := n_aug_ u;
     lambda_ := lambda_ u; NIS_radar_ := NIS_radar_ u; NIS_laser_ := NIS_laser_ u;
     H_laser_ := H_laser_ u; R_laser_ := R_laser_ u; R_radar_ := R_radar_ u |}.

Definition set_Xsig_pred_ (u : UKF) (M : MatrixXd) : UKF :=
  {| is_initialized_ := is_initialized_ u; use_laser_ := use_laser_ u; use_radar_ := use_radar_ u;
     x_ := x_ u; P_ := P_ u; Xsig_pred_ := M; time_us_ := time_us_ u;
     std_a_ := std_a_ u; std_yawdd_ := std_yawdd_ u; std_laspx_ := std_laspx_ u;
     std_laspy_ := std_laspy_ u; std_radr_ := std_radr_ u; std_radphi_ := std_radphi_ u;
     std_radrd_ := std_radrd_ u; weights_ := weights_ u; n_x_ := n_x_ u; n_aug_ := n_aug_ u;
     lambda_ := lambda_ u; NIS_radar_ := NIS_radar_ u; NIS_laser_ := NIS_laser_ u;
     H_laser_ := H_laser_ u; R_laser_ := R_laser_ u; R_radar_ := R_radar_ u |}.

Definition set_time_us_ (u : UKF) (t : Z) : UKF :=
  {| is_initialized_ := is_initialized_ u; use_laser_ := use_laser_ u; use_radar_ := use_radar_ u;
     x_ := x_ u; P_ := P_ u; Xsig_pred_ := Xsig_pred_ u; time_us_ := t;
     std_a_ := std_a_ u; std_yawdd_ := std_yawdd_ u; std_laspx_ := std_laspx_ u;
     std_laspy_ := std_laspy_ u; std_radr_ := std_radr_ u; std_radphi_ := std_radphi_ u;
     std_radrd_ := std_radrd_ u; weights_ := weights_ u; n_x_ := n_x_ u; n_aug_ := n_aug_ u;
     lambda_ := lambda_ u; NIS_radar_ := NIS_radar_ u; NIS_laser_ := NIS_laser_ u;
     H_laser_ := H_laser_ u; R_laser_ := R_laser_ u; R_radar_ := R_radar_ u |}.

Definition set_NIS_radar_ (u : UKF) (a : R) : UKF :=
  {| is_initialized_ := is_initialized_ u; use_laser_ := use_laser_ u; use_radar_ := use_radar_ u;
     x_ := x_ u; P_ := P_ u; Xsig_pred_ := Xsig_pred_ u; time_us_ := time_us_ u;
     std_a_ := std_a_ u; std_yawdd_ := std_yawdd_ u; std_laspx_ := std_laspx_ u;
     std_laspy_ := std_laspy_ u; std_radr_ := std_radr_ u; std_radphi_ := std_radphi_ u;
     std_radrd_ := std_radrd_ u; weights_ := weights_ u; n_x_ := n_x_ u; n_aug_ := n_aug_ u;
     lambda_ := lambda_ u; NIS_radar_ := a; NIS_laser_ := NIS_laser_ u;
     H_laser_ := H_laser_ u; R_laser_ := R_laser_ u; R_radar_ := R_radar_ u |}.

Definition set_NIS_laser_ (u : UKF) (a : R) : UKF :=
  {| is_initialized_ := is_initialized_ u; use_laser_ := use_laser_ u; use_radar_ := use_radar_ u;
     x_ := x_ u; P_ := P_ u; Xsig_pred_ := Xsig_pred_ u; time_us_ := time_us_ u;
     std_a_ := std_a_ u; std_yawdd_ := std_yawdd_ u; std_laspx_ := std_laspx_ u;
     std_laspy_ := std_laspy_ u; std_radr_ := std_radr_ u; std_radphi_ := std_radphi_ u;
     std_radrd_ := std_radrd_ u; weights_ := weights_ u; n_x_ := n_x_ u; n_aug_ := n_aug_ u;
     lambda_ := lambda_ u; NIS_radar_ := NIS_radar_ u; NIS_laser_ := a;
     H_laser_ := H_laser_ u; R_laser_ := R_laser_ u; R_radar_ := R_radar_ u |}.

Definition set_raw_measurements_ (m : MeasurementPackage) (z : VectorXd) : MeasurementPackage :=
  {| timestamp_ := timestamp_ m; sensor_type_ := sensor_type_ m; raw_measurements_ := z |}.

(** ** The constructor [UKF::UKF]

    [mem] is the object before construction.  The constructor allocates
    [x_], [P_] and [Xsig_pred_] without writing their entries and does not
    assign [is_initialized_], [time_us_] or the two NIS values: those keep
    the indeterminate content of [mem]. *)
Definition UKF_UKF (mem : UKF) : UKF :=
  let n_x := 5%nat in
  let n_aug := (n_x + 2)%nat in
  let std_laspx := 0.15 in
  let std_laspy := 0.15 in
  let std_radr := 0.3 in
  let std_radphi := 0.03 in
  let std_radrd := 0.3 in
  let lambda := IZR (3 - Z.of_nat n_x) in
  let weights := vset (weights_ mem) 0 (lambda / (lambda + INR n_aug)) in
  let weights :=
    for_range 1 (2 * n_aug + 1)
      (fun i w => vset w i (0.5 / (INR n_aug + lambda))) weights in
  {| is_initialized_ := is_initialized_ mem;
     use_laser_ := true;
     use_radar_ := true;
     x_ := x_ mem;
     P_ := P_ mem;
     Xsig_pred_ := Xsig_pred_ mem;
     time_us_ := time_us_ mem;
     std_a_ := 0.45;
     std_yawdd_ := 0.45;
     std_laspx_ := std_laspx;
     std_laspy_ := std_laspy;
     std_radr_ := std_radr;
     std_radphi_ := std_radphi;
     std_radrd_ := std_radrd;
     weights_ := weights;
     n_x_ := n_x;
     n_aug_ := n_aug;
     lambda_ := lambda;
     NIS_radar_ := NIS_radar_ mem;
     NIS_laser_ := NIS_laser_ mem;
     H_laser_ := identity;
     R_laser_ := comma_init_mat 2 [std_laspx * std_laspx; 0;
                                   0; std_laspy * std_laspy];
     R_radar_ := comma_init_mat 3 [std_radr * std_radr; 0; 0;
                                   0; std_radphi * std_radphi; 0;
                                   0; 0; std_radrd * std_radrd] |}.

(** ** Angle normalization

    [while (a > M_PI) a -= 2.*M_PI;] followed by
    [while (a < -M_PI) a += 2.*M_PI;], the two loops the source repeats at
    every heading or bearing difference.  Over the reals each loop ends: the
    number of turns still to take is a measure that decreases. *)
Definition turns_above (a : R) : nat := Z.to_nat (up ((a - PI) / (2 * PI))).
Definition turns_below (a : R) : nat := Z.to_nat (up ((- PI - a) / (2 * PI))).

Ltac one_turn_less r :=
  let Hup := fresh "Hup" in
  let Hpos := fresh "Hpos" in
  let Hge := fresh "Hge" in
  assert (Hup : up (r - 1) = (up r - 1)%Z)
    by (symmetry; apply tech_up; rewrite minus_IZR;
        destruct (archimed r); lra);
  assert (Hpos : 0 < r)
    by (apply Rdiv_lt_0_compat; pose proof PI_RGT_0; lra);
  assert (Hge : (0 < up r)%Z)
    by (apply lt_IZR; destruct (archimed r); simpl; lra);
  lia.

Equations? while_above_PI (a : R) : R by wf (turns_above a) lt :=
  while_above_PI a with Rgt_dec a PI := {
    | left _ => while_above_PI (a - 2 * PI)
    | right _ => a }.
Proof.
  unfold turns_above.
  replace ((a - 2 * PI - PI) / (2 * PI)) with ((a - PI) / (2 * PI) - 1)
    by (field; pose proof PI_RGT_0; lra).
  one_turn_less ((a - PI) / (2 * PI)).
Qed.

Equations? while_below_minus_PI (a : R) : R by wf (turns_below a) lt :=
  while_below_minus_PI a with Rlt_dec a (- PI) := {
    | left _ => while_below_minus_PI (a + 2 * PI)
    | right _ => a }.
Proof.
  unfold turns_below.
  replace ((- PI - (a + 2 * PI)) / (2 * PI)) with ((- PI - a) / (2 * PI) - 1)
    by (field; pose proof PI_RGT_0; lra).
  one_turn_less ((- PI - a) / (2 * PI)).
Qed.

Definition normalize_angle (a : R) : R :=
  while_below_minus_PI (while_above_PI a).

(** ** Single precision

    The [float] variables of [ProcessMeasurement] hold binary32 values
    (24-bit significand, normal exponents -126 to 127, round to nearest with
    ties to even).  Inside the range of [float] the conversion below is the
    value the hardware stores; beyond [FLT_MAX] the program holds an
    infinity, for which the reals have no value. *)

Module Float32.

(** The binade of [a >= 0]: the largest exponent [e] from -126 up with
    [2^e <= a], and -126 below the normal range. *)
Fixpoint binade (fuel : nat) (e : Z) (a : R) : Z :=
  match fuel with
  | O => e
  | S f => if Rle_dec (powerRZ 2 (e + 1)) a then binade f (e + 1) a else e
  end.

Definition exponent (x : R) : Z := binade 253 (-126) (Rabs x).

Definition round_nearest_even (x : R) : Z :=
  let f := Zfloor x in
  if Rlt_dec (x - IZR f) (1 / 2) then f
  else if Rlt_dec (1 / 2) (x - IZR f) then (f + 1)%Z
  else if Z.even f then f else (f + 1)%Z.

(** [float y = x;] for a [double] (or a [float] product) [x]. *)
Definition to_float (x : R) : R :=
  let q := powerRZ 2 (exponent x - 23) in
  IZR (round_nearest_even (x / q)) * q.

(** The largest [float], and the values whose conversion is finite. *)
Definition FLT_MAX : R := IZR (2 ^ 24 - 1) * powerRZ 2 104.
Definition finite (x : R) : Prop := Rabs x <= FLT_MAX.

(** The product of two [float] values. *)
Definition fmul (a b : R) : R := to_float (a * b).

End Float32.
Import Float32.

(** The single-precision [cos] and [sin] that overload resolution selects
    for a [float] argument.  The C library does not fix their rounding, so
    they are taken as given; the statements that need a value of theirs
    say so. *)
Class Libm := {
  cosf : R -> R;
  sinf : R -> R
}.

(** ** Member functions *)

(** [UKF::NIS], for measurement vectors of size [n]. *)
Definition NIS (n : nat) (z_measured z_predicted : VectorXd) (S_predicted : MatrixXd) : R :=
  let diff_pred := vsub z_measured z_predicted in
  dot n (vmmul n diff_pred (inverse n S_predicted)) diff_pred.

(** [UKF::UpdateLidar]; [H_laser_] is 2 x [n_x_]. *)
Definition UpdateLidar (z : VectorXd) (u : UKF) : UKF :=
  let z_pred := mvmul (n_x_ u) (H_laser_ u) (x_ u) in
  let y := vsub z z_pred in
  let Ht := transpose (H_laser_ u) in
  let S := madd (mmul (n_x_ u) (mmul (n_x_ u) (H_laser_ u) (P_ u)) Ht) (R_laser_ u) in
  let Si := inverse 2 S in
  let PHt := mmul (n_x_ u) (P_ u) Ht in
  let K := mmul 2 PHt Si in
  let u := set_x_ u (vadd (x_ u) (mvmul 2 K y)) in
  let x_size := n_x_ u in
  let I := identity in
  let u := set_P_ u (mmul x_size (msub I (mmul 2 K (H_laser_ u))) (P_ u)) in
  set_NIS_laser_ u (NIS 2 z z_pred S).

(** Body of the first loop of [UKF::UpdateRadar]: sigma point [i] taken into
    measurement space. *)
Definition UpdateRadar_model (Xsig_pred : MatrixXd) (i : nat) (Zsig : MatrixXd) : MatrixXd :=
  let p_x := Xsig_pred 0%nat i in
  let p_y := Xsig_pred 1%nat i in
  let v := Xsig_pred 2%nat i in
  let yaw := Xsig_pred 3%nat i in
  let v1 := cos yaw * v in
  let v2 := sin yaw * v in
  let c1 := sqrt (p_x * p_x + p_y * p_y) in
  let Zsig := mset Zsig 0 i c1 in
  let Zsig := mset Zsig 1 i (atan2 p_y p_x) in
  mset Zsig 2 i (if Rgt_dec (Rabs c1) 0.0001 then (p_x * v1 + p_y * v2) / c1 else 0).

(** [UKF::UpdateRadar]; the measurement [z] is taken by non-const reference
    and written to, so the function returns it next to the filter. *)
Definition UpdateRadar (z : VectorXd) (u : UKF) : UKF * VectorXd :=
  let z := vset z 1 (while_above_PI (z 1%nat)) in
  let z := vset z 1 (while_below_minus_PI (z 1%nat)) in
  let n_sig := (2 * n_aug_ u + 1)%nat in
  let Zsig := for_range 0 n_sig (UpdateRadar_model (Xsig_pred_ u)) mzero in
  let z_pred :=
    for_range 0 n_sig
      (fun i z_pred => vadd z_pred (vscale (weights_ u i) (col Zsig i))) vzero in
  let S :=
    for_range 0 n_sig
      (fun i S =>
         let z_diff := vsub (col Zsig i) z_pred in
         let z_diff := vset z_diff 1 (while_above_PI (z_diff 1%nat)) in
         let z_diff := vset z_diff 1 (while_below_minus_PI (z_diff 1%nat)) in
         madd S (outer (vscale (weights_ u i) z_diff) z_diff)) mzero in
  let S := madd S (R_radar_ u) in
  let Tc :=
    for_range 0 n_sig
      (fun i Tc =>
         let z_diff := vsub (col Zsig i) z_pred in
         let z_diff := vset z_diff 1 (while_above_PI (z_diff 1%nat)) in
         let z_diff := vset z_diff 1 (while_below_minus_PI (z_diff 1%nat)) in
         let x_diff := vsub (col (Xsig_pred_ u) i) (x_ u) in
         let x_diff := vset x_diff 3 (while_above_PI (x_diff 3%nat)) in
         let x_diff := vset x_diff 3 (while_below_minus_PI (x_diff 3%nat)) in
         madd Tc (outer (vscale (weights_ u i) x_diff) z_diff)) mzero in
  let K := mmul 3 Tc (inverse 3 S) in
  let z_diff := vsub z z_pred in
  let z_diff := vset z_diff 1 (while_above_PI (z_diff 1%nat)) in
  let z_diff := vset z_diff 1 (while_below_minus_PI (z_diff 1%nat)) in
  let u := set_x_ u (vadd (x_ u) (mvmul 3 K z_diff)) in
  let u := set_P_ u (msub (P_ u) (mmul 3 (mmul 3 K S) (transpose K))) in
  (set_NIS_radar_ u (NIS 3 z z_pred S), z).

(** [UKF::GenerateAugmentedSigmaPoints]; returns the matrix it fills. *)
Definition GenerateAugmentedSigmaPoints (u : UKF) (Xsig_aug : MatrixXd) : MatrixXd :=
  let x_aug := set_head (n_x_ u) vzero (x_ u) in
  let x_aug := for_range (n_x_ u) (n_aug_ u) (fun i x_aug => vset x_aug i 0) x_aug in
  let P_aug := mzero in
  let P_aug := set_topLeftCorner (n_x_ u) (n_x_ u) P_aug (P_ u) in
  let P_aug := mset P_aug (n_x_ u) (n_x_ u) (std_a_ u * std_a_ u) in
  let P_aug := mset P_aug (n_x_ u + 1) (n_x_ u + 1) (std_yawdd_ u * std_yawdd_ u) in
  let L := llt_matrixL (n_aug_ u) P_aug in
  let Xsig_aug := set_col Xsig_aug 0 x_aug in
  for_range 0 (n_aug_ u)
    (fun i Xsig_aug =>
       let distance := vscale (sqrt (lambda_ u + INR (n_aug_ u))) (col L i) in
       let Xsig_aug := set_col Xsig_aug (i + 1) (vadd x_aug distance) in
       set_col Xsig_aug (i + 1 + n_aug_ u) (vsub x_aug distance)) Xsig_aug.

(** Body of the loop of [UKF::SigmaPointPrediction]: augmented sigma point
    [i] through the CTRV model, written to column [i] of [Xsig_pred_]. *)
Definition SigmaPointPrediction_body (delta_t : R) (Xsig_aug : MatrixXd) (i : nat) (u : UKF) : UKF :=
  let p_x := Xsig_aug 0%nat i in
  let p_y := Xsig_aug 1%nat i in
  let v := Xsig_aug 2%nat i in
  let yaw := Xsig_aug 3%nat i in
  let yawd := Xsig_aug 4%nat i in
  let nu_a := Xsig_aug 5%nat i in
  let nu_yawdd := Xsig_aug 6%nat i in
  let px_p :=
    if Rgt_dec (Rabs yawd) 0.001
    then p_x + v / yawd * (sin (yaw + yawd * delta_t) - sin yaw)
    else p_x + v * delta_t * cos yaw in
  let py_p :=
    if Rgt_dec (Rabs yawd) 0.001
    then p_y + v / yawd * (cos yaw - cos (yaw + yawd * delta_t))
    else p_y + v * delta_t * sin yaw in
  let v_p := v in
  let yaw_p := yaw + yawd * delta_t in
  let yawd_p := yawd in
  let delta_t_2 := delta_t * delta_t in
  let px_p := px_p + 0.5 * nu_a * delta_t_2 * cos yaw in
  let py_p := py_p + 0.5 * nu_a * delta_t_2 * sin yaw in
  let v_p := v_p + nu_a * delta_t in
  let yaw_p := yaw_p + 0.5 * nu_yawdd * delta_t_2 in
  let yawd_p := yawd_p + nu_yawdd * delta_t in
  let u := set_Xsig_pred_ u (mset (Xsig_pred_ u) 0 i px_p) in
  let u := set_Xsig_pred_ u (mset (Xsig_pred_ u) 1 i py_p) in
  let u := set_Xsig_pred_ u (mset (Xsig_pred_ u) 2 i v_p) in
  let u := set_Xsig_pred_ u (mset (Xsig_pred_ u) 3 i yaw_p) in
  set_Xsig_pred_ u (mset (Xsig_pred_ u) 4 i yawd_p).

Definition SigmaPointPrediction (delta_t : R) (Xsig_aug : MatrixXd) (u : UKF) : UKF :=
  for_range 0 (2 * n_aug_ u + 1) (SigmaPointPrediction_body delta_t Xsig_aug) u.

(** [UKF::PredictMeanAndCovariance]. *)
Definition PredictMeanAndCovariance (u : UKF) : UKF :=
  let n_sig := (2 * n_aug_ u + 1)%nat in
  let u := set_x_ u vzero in
  let u :=
    for_range 0 n_sig
      (fun i u => set_x_ u (vadd (x_ u) (vscale (weights_ u i) (col (Xsig_pred_ u) i)))) u in
  let u := set_P_ u mzero in
  for_range 0 n_sig
    (fun i u =>
       let x_diff := vsub (col (Xsig_pred_ u) i) (x_ u) in
       let x_diff := vset x_diff 3 (while_above_PI (x_diff 3%nat)) in
       let x_diff := vset x_diff 3 (while_below_minus_PI (x_diff 3%nat)) in
       set_P_ u (madd (P_ u) (outer (vscale (weights_ u i) x_diff) x_diff))) u.

(** [UKF::Prediction]. *)
Definition Prediction (delta_t : R) (u : UKF) : UKF :=
  let Xsig_aug := mzero in
  let Xsig_aug := GenerateAugmentedSigmaPoints u Xsig_aug in
  let u := SigmaPointPrediction delta_t Xsig_aug u in
  PredictMeanAndCovariance u.

(** [x == 0] on doubles. *)
Definition is_zero (a : R) : bool := if Req_dec_T a 0 then true else false.

(** [UKF::ProcessMeasurement]; the package is taken by non-const reference
    (the radar update writes to its raw values), so it is returned next to
    the filter.  [rho], [phi], [px], [py] and [dt] are [float] variables.
    Console output is left out. *)
Definition ProcessMeasurement {lm : Libm} (meas_pack : MeasurementPackage) (u : UKF) : UKF * MeasurementPackage :=
  if negb (is_initialized_ u) then
    let first :=
      match sensor_type_ meas_pack with
      | RADAR =>
          let rho := to_float (raw_measurements_ meas_pack 0%nat) in
          let phi := to_float (raw_measurements_ meas_pack 1%nat) in
          let px := fmul rho (cosf phi) in
          let py := fmul rho (sinf phi) in
          Some (set_x_ u (comma_init [px; py; 0; 0; 0]))
      | LASER =>
          let px := to_float (raw_measurements_ meas_pack 0%nat) in
          let py := to_float (raw_measurements_ meas_pack 1%nat) in
          Some (set_x_ u (comma_init [px; py; 0; 0; 0]))
      | OTHER => None
      end in
    match first with
    | None => (u, meas_pack)
    | Some u =>
        if is_zero (x_ u 0%nat) && is_zero (x_ u 1%nat) then (u, meas_pack)
        else
          let u := set_P_ u identity in
          let u := set_time_us_ u (timestamp_ meas_pack) in
          let u := set_is_initialized_ u true in
          (u, meas_pack)
    end
  else
    let dt := to_float (IZR (timestamp_ meas_pack - time_us_ u) / 1000000) in
    let u := set_time_us_ u (timestamp_ meas_pack) in
    let u := Prediction dt u in
    match sensor_type_ meas_pack with
    | RADAR =>
        if negb (use_radar_ u) then (u, meas_pack)
        else
          let '(u, z) := UpdateRadar (raw_measurements_ meas_pack) u in
          (u, set_raw_measurements_ meas_pack z)
    | LASER =>
        if negb (use_laser_ u) then (u, meas_pack)
        else (UpdateLidar (raw_measurements_ meas_pack) u, meas_pack)
    | OTHER => (u, meas_pack)
    end.

(** ** The two guarded divisions, with division by zero made an error

    The same loop bodies as [SigmaPointPrediction_body] and
    [UpdateRadar_model], evaluated with a division that fails on a zero
    divisor: [None] means a division by zero was reached. *)
Definition checked_div (a b : R) : option R :=
  if Req_dec_T b 0 then None else Some (a / b).

Definition ctrv_position_checked (delta_t p_x p_y v yaw yawd : R) : option (R * R) :=
  if Rgt_dec (Rabs yawd) 0.001 then
    match checked_div v yawd with
    | None => None
    | Some q1 =>
        match checked_div v yawd with
        | None => None
        | Some q2 =>
            Some (p_x + q1 * (sin (yaw + yawd * delta_t) - sin yaw),
                  p_y + q2 * (cos yaw - cos (yaw + yawd * delta_t)))
        end
    end
  else Some (p_x + v * delta_t * cos yaw, p_y + v * delta_t * sin yaw).

Definition rho_dot_checked (p_x p_y v yaw : R) : option R :=
  let v1 := cos yaw * v in
  let v2 := sin yaw * v in
  let c1 := sqrt (p_x * p_x + p_y * p_y) in
  if Rgt_dec (Rabs c1) 0.0001 then checked_div (p_x * v1 + p_y * v2) c1 else Some 0.

(** ** Well-formed parameters

    The fields the constructor computes and no member function assigns
    afterwards: dimensions, spreading parameter, weights and the fixed
    measurement matrices, compared on the entries the program uses. *)
Definition n_sig (u : UKF) : nat := (2 * n_aug_ u + 1)%nat.

Record constructed (u : UKF) : Prop := {
  c_n_x : n_x_ u = n_x_ (UKF_UKF u);
  c_n_aug : n_aug_ u = n_aug_ (UKF_UKF u);
  c_lambda : lambda_ u = lambda_ (UKF_UKF u);
  c_weights : forall i, (i < 15)%nat -> weights_ u i = weights_ (UKF_UKF u) i;
  c_H_laser : forall r c, (r < 2)%nat -> (c < 5)%nat -> H_laser_ u r c = H_laser_ (UKF_UKF u) r c;
  c_R_laser : forall r c, (r < 2)%nat -> (c < 2)%nat -> R_laser_ u r c = R_laser_ (UKF_UKF u) r c;
  c_R_radar : forall r c, (r < 3)%nat -> (c < 3)%nat -> R_radar_ u r c = R_radar_ (UKF_UKF u) r c
}.

(** A matrix is symmetric on its leading [n] x [n] block. *)
Definition symmetric (n : nat) (A : MatrixXd) : Prop :=
  forall r c, (r < n)%nat -> (c < n)%nat -> A r c = A c r.

(** The position [(px, py)] the first measurement is converted to, as the
    two bootstrap branches of [ProcessMeasurement] compute it in [float];
    [None] for an unknown kind. *)
Definition bootstrap_position {lm : Libm} (m : MeasurementPackage) : option (R * R) :=
  match sensor_type_ m with
  | RADAR =>
      let rho := to_float (raw_measurements_ m 0%nat) in
      let phi := to_float (raw_measurements_ m 1%nat) in
      Some (fmul rho (cosf phi), fmul rho (sinf phi))
  | LASER =>
      Some (to_float (raw_measurements_ m 0%nat), to_float (raw_measurements_ m 1%nat))
  | OTHER => None
  end.

(** The first measurements on which every [float] of the bootstrap is
    finite: the two raw values and, for radar, the two products. *)
Definition finite_reading {lm : Libm} (m : MeasurementPackage) : Prop :=
  finite (raw_measurements_ m 0%nat) /\
  finite (raw_measurements_ m 1%nat) /\
  (sensor_type_ m = RADAR ->
   finite (to_float (raw_measurements_ m 0%nat) *
           cosf (to_float (raw_measurements_ m 1%nat))) /\
   finite (to_float (raw_measurements_ m 0%nat) *
           sinf (to_float (raw_measurements_ m 1%nat)))).

(** What an accepted first measurement at position [(px, py)] and time [t]
    leaves in the filter [u'], started from [u]. *)
Record bootstrapped_at (px py : R) (t : Z) (u u' : UKF) : Prop := {
  b_x : x_ u' = comma_init [px; py; 0; 0; 0];
  b_P : P_ u' = identity;
  b_time : time_us_ u' = t;
  b_initialized : is_initialized_ u' = true;
  b_Xsig_pred : Xsig_pred_ u' = Xsig_pred_ u;
  b_NIS_laser : NIS_laser_ u' = NIS_laser_ u;
  b_NIS_radar : NIS_radar_ u' = NIS_radar_ u
}.

(** The fields no member function assigns after the constructor. *)
Definition parameters (u : UKF) :=
  (use_laser_ u, use_radar_ u,
   (std_a_ u, std_yawdd_ u, std_laspx_ u, std_laspy_ u),
   (std_radr_ u, std_radphi_ u, std_radrd_ u),
   (weights_ u, n_x_ u, n_aug_ u, lambda_ u),
   (H_laser_ u, R_laser_ u, R_radar_ u)).

(** Every field other than the estimate [x_], [P_] and the cached sigma
    points [Xsig_pred_]. *)
Definition other_fields (u : UKF) :=
  (is_initialized_ u, time_us_ u, NIS_radar_ u, NIS_laser_ u, parameters u).

(** ** Concrete objects for the examples *)

(** Object memory before construction, here all zero and not initialized. *)
Definition blank : UKF :=
  {| is_initialized_ := false; use_laser_ := false; use_radar_ := false;
     x_ := vzero; P_ := mzero; Xsig_pred_ := mzero; time_us_ := 0%Z;
     std_a_ := 0; std_yawdd_ := 0; std_laspx_ := 0; std_laspy_ := 0;
     std_radr_ := 0; std_radphi_ := 0; std_radrd_ := 0;
     weights_ := vzero; n_x_ := 0%nat; n_aug_ := 0%nat; lambda_ := 0;
     NIS_radar_ := 0; NIS_laser_ := 0;
     H_laser_ := mzero; R_laser_ := mzero; R_radar_ := mzero |}.

(** A constructed filter that has seen no measurement. *)
Definition fresh : UKF := UKF_UKF blank.

(** The same, on memory whose [x_] held other values before. *)
Definition fresh_on_used_memory : UKF :=
  UKF_UKF (set_x_ blank (comma_init [1; 1; 1; 1; 1])).

Definition lidar_pkg (t : Z) (px py : R) : MeasurementPackage :=
  {| timestamp_ := t; sensor_type_ := LASER; raw_measurements_ := comma_init [px; py] |}.
Definition radar_pkg (t : Z) (rho phi rho_dot : R) : MeasurementPackage :=
  {| timestamp_ := t; sensor_type_ := RADAR;
     raw_measurements_ := comma_init [rho; phi; rho_dot] |}.
Definition other_pkg (t : Z) : MeasurementPackage :=
  {| timestamp_ := t; sensor_type_ := OTHER; raw_measurements_ := vzero |}.

(** A constructed filter holding the estimate [x = [3,4,0,0,0]], [P = I]. *)
Definition estimate_3_4 : UKF :=
  set_P_ (set_x_ fresh (comma_init [3; 4; 0; 0; 0])) identity.

(** A single-precision library whose [cosf] and [sinf] are correctly
    rounded. *)
Definition libm32 : Libm :=
  {| cosf := fun x => to_float (cos x); sinf := fun x => to_float (sin x) |}.

(** A filter bootstrapped by a lidar reading at [(3, 4)] and time [0]. *)
Definition tracking : UKF :=
  fst (ProcessMeasurement (lm := libm32) (lidar_pkg 0 3 4) fresh).

(** ** Intermediate values of the member functions

    The local variables the statements below speak about, written as the
    member functions compute them. *)

(** [x_aug], [P_aug] and [L] of [GenerateAugmentedSigmaPoints]. *)
Definition GenerateAugmentedSigmaPoints_x_aug (u : UKF) : VectorXd :=
  for_range (n_x_ u) (n_aug_ u) (fun i x_aug => vset x_aug i 0)
    (set_head (n_x_ u) vzero (x_ u)).

Definition GenerateAugmentedSigmaPoints_P_aug (u : UKF) : MatrixXd :=
  let P_aug := mzero in
  let P_aug := set_topLeftCorner (n_x_ u) (n_x_ u) P_aug (P_ u) in
  let P_aug := mset P_aug (n_x_ u) (n_x_ u) (std_a_ u * std_a_ u) in
  mset P_aug (n_x_ u + 1) (n_x_ u + 1) (std_yawdd_ u * std_yawdd_ u).

Definition GenerateAugmentedSigmaPoints_L (u : UKF) : MatrixXd :=
  llt_matrixL (n_aug_ u) (GenerateAugmentedSigmaPoints_P_aug u).

(** A difference [a - b] whose entry [k] is then normalized by the two
    loops: [x_diff] (with [k = 3]) and [z_diff] (with [k = 1]) of the source. *)
Definition angle_diff (k : nat) (a b : VectorXd) : VectorXd :=
  let d := vsub a b in
  let d := vset d k (while_above_PI (d k)) in
  vset d k (while_below_minus_PI (d k)).

(** [Zsig] and [z_pred] of [UpdateRadar]. *)
Definition UpdateRadar_Zsig (u : UKF) : MatrixXd :=
  for_range 0 (2 * n_aug_ u + 1) (UpdateRadar_model (Xsig_pred_ u)) mzero.

Definition UpdateRadar_z_pred (u : UKF) : VectorXd :=
  for_range 0 (2 * n_aug_ u + 1)
    (fun i z_pred => vadd z_pred (vscale (weights_ u i) (col (UpdateRadar_Zsig u) i)))
    vzero.

(** [S] of [UpdateLidar]. *)
Definition UpdateLidar_S (u : UKF) : MatrixXd :=
  madd (mmul (n_x_ u) (mmul (n_x_ u) (H_laser_ u) (P_ u)) (transpose (H_laser_ u)))
       (R_laser_ u).

(** * Properties *)

(** ** Single precision *)

Lemma powerRZ_2_pos (k : Z) : 0 < powerRZ 2 k.
Proof.
  apply powerRZ_lt. lra.
Qed.

Lemma powerRZ_2_succ (k : Z) : powerRZ 2 (k + 1) = 2 * powerRZ 2 k.
Proof.
  rewrite powerRZ_add by lra. simpl. ring.
Qed.

Lemma powerRZ_2_le (a b : Z) : (a <= b)%Z -> powerRZ 2 a <= powerRZ 2 b.
Proof.
  intros Hab. replace b with (a + Z.of_nat (Z.to_nat (b - a)))%Z by lia.
  induction (Z.to_nat (b - a)) as [| n IH].
  - rewrite Z.add_0_r. lra.
  - rewrite Nat2Z.inj_succ. unfold Z.succ. rewrite Z.add_assoc, powerRZ_2_succ.
    pose proof (powerRZ_2_pos (a + Z.of_nat n)). lra.
Qed.

(** The search finds the binade of a normal value, and stays at -126 below
    the normal range. *)
Lemma binade_normal (fuel : nat) (e K : Z) (a : R) :
  (e <= K)%Z -> (K - e <= Z.of_nat fuel)%Z ->
  powerRZ 2 K <= a < powerRZ 2 (K + 1) ->
  binade fuel e a = K.
Proof.
  revert e. induction fuel as [| f IH]; intros e He Hf [Hlo Hhi].
  - cbn [binade]. lia.
  - cbn [binade]. destruct (Rle_dec (powerRZ 2 (e + 1)) a) as [Hle | Hgt].
    + assert (e < K)%Z.
      { destruct (Z.eq_dec e K) as [-> | Hne]; [lra | lia]. }
      apply IH; [lia | lia | split; assumption].
    + destruct (Z.eq_dec e K) as [-> | Hne]; [reflexivity |].
      exfalso. apply Hgt.
      apply Rle_trans with (powerRZ 2 K); [apply powerRZ_2_le; lia | exact Hlo].
Qed.

Lemma binade_subnormal (fuel : nat) (a : R) :
  a < powerRZ 2 (-125) -> binade fuel (-126) a = (-126)%Z.
Proof.
  intros Ha. destruct fuel as [| f]; [reflexivity |]. cbn [binade].
  change (-126 + 1)%Z with (-125)%Z.
  destruct (Rle_dec (powerRZ 2 (-125)) a) as [Hle | _]; [lra | reflexivity].
Qed.

Lemma round_nearest_even_IZR (n : Z) : round_nearest_even (IZR n) = n.
Proof.
  unfold round_nearest_even. rewrite ZfloorZ.
  destruct (Rlt_dec (IZR n - IZR n) (1 / 2)) as [_ | H]; [reflexivity | lra].
Qed.

(** A value with a 24-bit significand in a normal binade is a [float]: the
    conversion returns it. *)
Lemma to_float_exact (n K : Z) :
  (-126 <= K <= 127)%Z ->
  powerRZ 2 K <= Rabs (IZR n * powerRZ 2 (K - 23)) < powerRZ 2 (K + 1) ->
  to_float (IZR n * powerRZ 2 (K - 23)) = IZR n * powerRZ 2 (K - 23).
Proof.
  intros HK Hx. unfold to_float, exponent.
  rewrite (binade_normal 253 (-126) K) by (lia || exact Hx).
  pose proof (powerRZ_2_pos (K - 23)) as Hq.
  replace (IZR n * powerRZ 2 (K - 23) / powerRZ 2 (K - 23)) with (IZR n)
    by (field; lra).
  rewrite round_nearest_even_IZR. reflexivity.
Qed.

Lemma to_float_0 : to_float 0 = 0.
Proof.
  unfold to_float, exponent. rewrite Rabs_R0.
  rewrite binade_subnormal by apply powerRZ_2_pos.
  unfold Rdiv. rewrite Rmult_0_l.
  change 0 with (IZR 0) at 1. rewrite round_nearest_even_IZR. simpl. ring.
Qed.

(** Below half the smallest subnormal the conversion underflows to zero. *)
Lemma to_float_underflow (x : R) : Rabs x < powerRZ 2 (-150) -> to_float x = 0.
Proof.
  intros Hx. unfold to_float, exponent.
  assert (H150 : powerRZ 2 (-149) = 2 * powerRZ 2 (-150))
    by (rewrite <- powerRZ_2_succ; reflexivity).
  rewrite binade_subnormal
    by (apply Rlt_le_trans with (1 := Hx); apply powerRZ_2_le; lia).
  change (-126 - 23)%Z with (-149)%Z.
  pose proof (powerRZ_2_pos (-150)) as Hp.
  set (q := powerRZ 2 (-149)) in *.
  assert (Hy : - (1 / 2) < x / q < 1 / 2).
  { apply Rabs_def2 in Hx. destruct Hx as [Hhi Hlo]. split.
    - apply Rmult_lt_reg_r with (r := q); [lra |].
      unfold Rdiv. rewrite Rmult_assoc, Rinv_l by lra. lra.
    - apply Rmult_lt_reg_r with (r := q); [lra |].
      unfold Rdiv at 1. rewrite Rmult_assoc, Rinv_l by lra. lra. }
  unfold round_nearest_even.
  destruct (Rle_dec 0 (x / q)) as [Hnn | Hneg].
  - rewrite (Zfloor_eq 0 (x / q)) by (simpl; lra).
    destruct (Rlt_dec (x / q - IZR 0) (1 / 2)) as [_ | H]; [simpl; ring | simpl in H; lra].
  - rewrite (Zfloor_eq (-1) (x / q)) by (simpl; lra).
    destruct (Rlt_dec (x / q - IZR (-1)) (1 / 2)) as [H | _]; [simpl in H; lra |].
    destruct (Rlt_dec (1 / 2) (x / q - IZR (-1))) as [_ | H]; [simpl; ring | simpl in H; lra].
Qed.

Lemma to_float_1 : to_float 1 = 1.
Proof.
  replace 1 with (IZR (2 ^ 23) * powerRZ 2 (0 - 23)) by (simpl; lra).
  apply to_float_exact; [lia |].
  replace (IZR (2 ^ 23) * powerRZ 2 (0 - 23)) with 1 by (simpl; lra).
  rewrite Rabs_R1. simpl. lra.
Qed.

Lemma to_float_3 : to_float 3 = 3.
Proof.
  replace 3 with (IZR (3 * 2 ^ 22) * powerRZ 2 (1 - 23)) by (simpl; lra).
  apply to_float_exact; [lia |].
  replace (IZR (3 * 2 ^ 22) * powerRZ 2 (1 - 23)) with 3 by (simpl; lra).
  rewrite Rabs_pos_eq by lra. simpl. lra.
Qed.

Lemma to_float_4 : to_float 4 = 4.
Proof.
  replace 4 with (IZR (2 ^ 23) * powerRZ 2 (2 - 23)) by (simpl; lra).
  apply to_float_exact; [lia |].
  replace (IZR (2 ^ 23) * powerRZ 2 (2 - 23)) with 4 by (simpl; lra).
  rewrite Rabs_pos_eq by lra. simpl. lra.
Qed.

Lemma to_float_5 : to_float 5 = 5.
Proof.
  replace 5 with (IZR (5 * 2 ^ 21) * powerRZ 2 (2 - 23)) by (simpl; lra).
  apply to_float_exact; [lia |].
  replace (IZR (5 * 2 ^ 21) * powerRZ 2 (2 - 23)) with 5 by (simpl; lra).
  rewrite Rabs_pos_eq by lra. simpl. lra.
Qed.

(** [2^24 + 1] is not a [float]: the tie goes to the even neighbour. *)
Lemma to_float_16777217 : to_float 16777217 = 16777216.
Proof.
  unfold to_float, exponent.
  rewrite (binade_normal 253 (-126) 24)
    by (lia || (rewrite Rabs_pos_eq by lra; simpl; lra)).
  change (24 - 23)%Z with 1%Z. simpl powerRZ. rewrite Rmult_1_r.
  unfold round_nearest_even.
  rewrite (Zfloor_eq 8388608 (16777217 / 2)) by lra.
  destruct (Rlt_dec (16777217 / 2 - 8388608) (1 / 2)) as [H | _]; [lra |].
  destruct (Rlt_dec (1 / 2) (16777217 / 2 - 8388608)) as [H | _]; [lra |].
  simpl. lra.
Qed.

Lemma to_float_16777216 : to_float 16777216 = 16777216.
Proof.
  replace 16777216 with (IZR (2 ^ 23) * powerRZ 2 (24 - 23)) by (simpl; lra).
  apply to_float_exact; [lia |].
  replace (IZR (2 ^ 23) * powerRZ 2 (24 - 23)) with 16777216 by (simpl; lra).
  rewrite Rabs_pos_eq by lra. simpl. lra.
Qed.

Lemma fmul_0_l (b : R) : fmul 0 b = 0.
Proof.
  unfold fmul. rewrite Rmult_0_l. apply to_float_0.
Qed.

Lemma finite_small (x : R) : Rabs x <= 16777217 -> finite x.
Proof.
  intros Hx. unfold finite, FLT_MAX.
  apply Rle_trans with (1 := Hx).
  assert (H3 : powerRZ 2 1 <= powerRZ 2 104) by (apply powerRZ_2_le; lia).
  replace (powerRZ 2 1) with 2 in H3 by (simpl; ring).
  assert (H2 : 16777217 <= IZR (2 ^ 24 - 1) * 2) by (simpl; lra).
  assert (H4 : 0 <= IZR (2 ^ 24 - 1)) by (simpl; lra).
  nra.
Qed.

(** The library [libm32] has [cosf(0) = 1] and [sinf(0) = 0]. *)
Lemma libm32_at_0 : cosf (Libm := libm32) 0 = 1 /\ sinf (Libm := libm32) 0 = 0.
Proof.
  unfold libm32, cosf, sinf. rewrite cos_0, sin_0. split.
  - apply to_float_1.
  - apply to_float_0.
Qed.

(** ** The two normalization loops *)

Lemma while_above_PI_step (a : R) :
  a > PI -> while_above_PI a = while_above_PI (a - 2 * PI).
Proof.
  intros Ha. rewrite while_above_PI_equation_1 at 1.
  destruct (Rgt_dec a PI) as [Hgt | Hn]; [reflexivity | contradiction].
Qed.

Lemma while_above_PI_exit (a : R) : a <= PI -> while_above_PI a = a.
Proof.
  intros Ha. rewrite while_above_PI_equation_1.
  destruct (Rgt_dec a PI) as [Hgt | Hn]; [lra | reflexivity].
Qed.

Lemma while_below_minus_PI_step (a : R) :
  a < - PI -> while_below_minus_PI a = while_below_minus_PI (a + 2 * PI).
Proof.
  intros Ha. rewrite while_below_minus_PI_equation_1 at 1.
  destruct (Rlt_dec a (- PI)) as [Hlt | Hn]; [reflexivity | contradiction].
Qed.

Lemma while_below_minus_PI_exit (a : R) : - PI <= a -> while_below_minus_PI a = a.
Proof.
  intros Ha. rewrite while_below_minus_PI_equation_1.
  destruct (Rlt_dec a (- PI)) as [Hlt | Hn]; [lra | reflexivity].
Qed.

(** The first loop leaves a value that is at most [PI]; when it has run at
    least once the value is also above [- PI]. *)
Lemma while_above_PI_upper (a : R) : while_above_PI a <= PI.
Proof.
  funelim (while_above_PI a); [assumption | lra].
Qed.

Lemma while_above_PI_lower (a : R) : - PI <= a -> - PI <= while_above_PI a.
Proof.
  apply (while_above_PI_elim (fun a r => - PI <= a -> - PI <= r)).
  - intros b Hb IH _ Hlo. apply IH. pose proof PI_RGT_0. lra.
  - intros b _ _ Hlo. exact Hlo.
Qed.

Lemma while_below_minus_PI_lower (a : R) : - PI <= while_below_minus_PI a.
Proof.
  funelim (while_below_minus_PI a); [assumption | lra].
Qed.

Lemma while_below_minus_PI_upper (a : R) : a <= PI -> while_below_minus_PI a <= PI.
Proof.
  apply (while_below_minus_PI_elim (fun a r => a <= PI -> r <= PI)).
  - intros b Hb IH _ Hhi. apply IH. pose proof PI_RGT_0. lra.
  - intros b _ _ Hhi. exact Hhi.
Qed.

(** Each loop moves its argument by a whole number of turns. *)
Lemma while_above_PI_turns (a : R) :
  exists k : Z, while_above_PI a = a + 2 * IZR k * PI.
Proof.
  apply (while_above_PI_elim (fun a r => exists k : Z, r = a + 2 * IZR k * PI)).
  - intros b _ [k Hk] _. exists (k - 1)%Z.
    rewrite Hk, minus_IZR. ring.
  - intros b _ _. exists 0%Z. simpl. ring.
Qed.

Lemma while_below_minus_PI_turns (a : R) :
  exists k : Z, while_below_minus_PI a = a + 2 * IZR k * PI.
Proof.
  apply (while_below_minus_PI_elim (fun a r => exists k : Z, r = a + 2 * IZR k * PI)).
  - intros b _ [k Hk] _. exists (k + 1)%Z.
    rewrite Hk, plus_IZR. ring.
  - intros b _ _. exists 0%Z. simpl. ring.
Qed.

Lemma normalize_angle_turns (a : R) :
  exists k : Z, normalize_angle a = a + 2 * IZR k * PI.
Proof.
  unfold normalize_angle.
  destruct (while_above_PI_turns a) as [k1 H1].
  destruct (while_below_minus_PI_turns (while_above_PI a)) as [k2 H2].
  exists (k1 + k2)%Z. rewrite H2, H1, plus_IZR. ring.
Qed.

Lemma normalize_angle_bounds (a : R) : - PI <= normalize_angle a <= PI.
Proof.
  unfold normalize_angle. split.
  - apply while_below_minus_PI_lower.
  - apply while_below_minus_PI_upper, while_above_PI_upper.
Qed.

Lemma normalize_angle_fixed (a : R) : - PI <= a <= PI -> normalize_angle a = a.
Proof.
  intros [Hlo Hhi]. unfold normalize_angle.
  rewrite (while_above_PI_exit a Hhi). apply while_below_minus_PI_exit, Hlo.
Qed.

(** The in-place form the source uses on entry [i] of a vector. *)
Lemma normalized_entry (v : VectorXd) (i : nat) :
  let v1 := vset v i (while_above_PI (v i)) in
  let v2 := vset v1 i (while_below_minus_PI (v1 i)) in
  v2 i = normalize_angle (v i) /\ forall k, k <> i -> v2 k = v k.
Proof.
  cbv zeta. unfold vset, normalize_angle. rewrite Nat.eqb_refl. split.
  - reflexivity.
  - intros k Hk. apply Nat.eqb_neq in Hk. rewrite Hk. reflexivity.
Qed.

(** C8, as stated, fails at [- PI]: the second loop tests [a < - PI]
    strictly, so [- PI] is returned unchanged and the result is not in the
    half-open interval [(- PI, PI]]. *)
Lemma normalize_angle_minus_PI_not_half_open :
  normalize_angle (- PI) = - PI /\
  ~ (forall a : R, - PI < normalize_angle a <= PI).
Proof.
  assert (H : normalize_angle (- PI) = - PI).
  { apply normalize_angle_fixed. pose proof PI_RGT_0. lra. }
  split; [exact H |].
  intros Hall. specialize (Hall (- PI)). rewrite H in Hall. lra.
Qed.

(** C8 (amended): the normalization (subtract [2*PI] while above [PI], then
    add [2*PI] while below [- PI]) is the identity on every angle in
    [(- PI, PI]], maps [PI + 0.1] to [0.1 - PI], and its result always lies
    in the closed interval [[- PI, PI]]. *)
Theorem normalize_angle_spec (a : R) :
  (- PI < a <= PI -> normalize_angle a = a) /\
  normalize_angle (PI + 0.1) = 0.1 - PI /\
  - PI <= normalize_angle a <= PI.
Proof.
  split; [| split].
  - intros [Hlo Hhi]. apply normalize_angle_fixed. lra.
  - unfold normalize_angle. pose proof PI2_3_2 as Hpi.
    rewrite while_above_PI_step by lra.
    rewrite while_above_PI_exit by lra.
    rewrite while_below_minus_PI_exit by lra. ring.
  - apply normalize_angle_bounds.
Qed.

Lemma normalize_angle_spec_witness :
  - PI < 0 <= PI /\ normalize_angle 0 = 0.
Proof.
  assert (H : - PI < 0 <= PI) by (pose proof PI_RGT_0; lra).
  split; [exact H | exact (proj1 (normalize_angle_spec 0) H)].
Defined.

(** ** The radar update writes to its argument *)

(** C3: [UpdateRadar] leaves in the caller's vector a bearing [z(1)] moved
    by a whole number of turns into [[- PI, PI]]; every other entry, in
    particular [z(0)] and [z(2)], is as before. *)
Theorem UpdateRadar_normalizes_argument (z : VectorXd) (u : UKF) :
  let z' := snd (UpdateRadar z u) in
  (exists k : Z, z' 1%nat = z 1%nat + 2 * IZR k * PI) /\
  - PI <= z' 1%nat <= PI /\
  z' 0%nat = z 0%nat /\
  z' 2%nat = z 2%nat /\
  (forall i, i <> 1%nat -> z' i = z i).
Proof.
  cbv zeta. unfold UpdateRadar. cbn [snd].
  destruct (normalized_entry z 1) as [H1 Hframe]. cbv zeta in H1, Hframe.
  rewrite H1.
  split; [apply normalize_angle_turns |].
  split; [apply normalize_angle_bounds |].
  split; [apply Hframe; discriminate |].
  split; [apply Hframe; discriminate | exact Hframe].
Qed.

(** ** Loops *)

Lemma for_range_preserves {S : Type} (Q : S -> Prop) (lo hi : nat)
      (body : nat -> S -> S) (s : S) :
  (forall i s', Q s' -> Q (body i s')) -> Q s -> Q (for_range lo hi body s).
Proof.
  intros Hbody. unfold for_range.
  generalize (seq lo (hi - lo)). intros l. revert s.
  induction l as [| i l IH]; intros s Hs; simpl.
  - exact Hs.
  - apply IH, Hbody, Hs.
Qed.

(** An accumulating loop over [0 .. n-1] is a sum. *)
Lemma fold_left_sum (f : nat -> R) (l : list nat) (a : R) :
  fold_left (fun acc i => acc + f i) l a = a + fold_left (fun acc i => acc + f i) l 0.
Proof.
  revert a. induction l as [| i l IH]; intros a; simpl.
  - ring.
  - rewrite IH. rewrite (IH (0 + f i)). ring.
Qed.

Lemma fold_left_seq_sum_n (f : nat -> R) (n : nat) :
  fold_left (fun acc i => acc + f i) (seq 0 n) 0 = sum_n n f.
Proof.
  induction n as [| n IH].
  - reflexivity.
  - rewrite seq_S, fold_left_app. simpl. rewrite IH. reflexivity.
Qed.

(** ** The constructor *)

Ltac run_loops :=
  cbv [for_range fold_left seq Nat.sub Nat.add Nat.mul vset mset set_col col
       set_head set_topLeftCorner Nat.eqb Nat.ltb Nat.leb andb sum_n n_sig].

Lemma weights_UKF_UKF (mem : UKF) (i : nat) :
  (i < 15)%nat ->
  weights_ (UKF_UKF mem) i = if Nat.eqb i 0 then - 2 / 5 else 1 / 10.
Proof.
  intros Hi. unfold UKF_UKF. cbn [weights_].
  do 15 (destruct i as [| i]; [run_loops; simpl; lra |]).
  lia.
Qed.

Lemma constructed_UKF_UKF (mem : UKF) : constructed (UKF_UKF mem).
Proof.
  split; try reflexivity.
  intros i Hi. rewrite !weights_UKF_UKF by exact Hi. reflexivity.
Qed.

Lemma constructed_dims (u : UKF) :
  constructed u -> n_x_ u = 5%nat /\ n_aug_ u = 7%nat /\ lambda_ u = - 2.
Proof.
  intros [Hx Ha Hl _ _ _ _]. repeat split.
  - exact Hx.
  - exact Ha.
  - rewrite Hl. simpl. lra.
Qed.

Lemma constructed_weights (u : UKF) (i : nat) :
  constructed u -> (i < 15)%nat ->
  weights_ u i = if Nat.eqb i 0 then - 2 / 5 else 1 / 10.
Proof.
  intros Hc Hi. rewrite (c_weights u Hc i Hi). apply weights_UKF_UKF, Hi.
Qed.

(** C5: after construction [n_x_ = 5], [n_aug_ = 7], [lambda_ = 3 - n_x_],
    the weight vector has [2*n_aug_+1 = 15] entries with
    [weights_(0) = lambda_/(lambda_+n_aug_)] and
    [weights_(i) = 1/(2*(n_aug_+lambda_))] for [1 <= i < 15], and the 15
    weights sum to exactly 1. *)
Theorem constructor_weights (mem : UKF) :
  let u := UKF_UKF mem in
  n_x_ u = 5%nat /\ n_aug_ u = 7%nat /\ n_sig u = 15%nat /\
  lambda_ u = 3 - INR (n_x_ u) /\
  weights_ u 0%nat = lambda_ u / (lambda_ u + INR (n_aug_ u)) /\
  (forall i, (1 <= i < n_sig u)%nat ->
     weights_ u i = 1 / (2 * (INR (n_aug_ u) + lambda_ u))) /\
  sum_n (n_sig u) (weights_ u) = 1.
Proof.
  cbv zeta.
  split; [reflexivity |]. split; [reflexivity |]. split; [reflexivity |].
  split; [simpl; lra |].
  split; [rewrite weights_UKF_UKF by lia; simpl; lra |].
  split.
  - intros i [Hlo Hhi]. change (n_sig (UKF_UKF mem)) with 15%nat in Hhi.
    rewrite weights_UKF_UKF by exact Hhi.
    destruct i as [| i]; [lia |]. simpl. lra.
  - change (n_sig (UKF_UKF mem)) with 15%nat. cbv [sum_n].
    rewrite !weights_UKF_UKF by lia. simpl. lra.
Qed.

Lemma constructor_weights_witness :
  (1 <= 3 < n_sig fresh)%nat /\
  weights_ fresh 3%nat = 1 / (2 * (INR (n_aug_ fresh) + lambda_ fresh)).
Proof.
  assert (H : (1 <= 3 < n_sig fresh)%nat) by (cbv; lia).
  split; [exact H |].
  exact (proj1 (proj2 (proj2 (proj2 (proj2 (proj2 (constructor_weights blank)))))) 3%nat H).
Defined.

(** ** What the member functions leave alone *)

Lemma other_fields_SigmaPointPrediction (delta_t : R) (Xsig_aug : MatrixXd) (u : UKF) :
  other_fields (SigmaPointPrediction delta_t Xsig_aug u) = other_fields u /\
  x_ (SigmaPointPrediction delta_t Xsig_aug u) = x_ u /\
  P_ (SigmaPointPrediction delta_t Xsig_aug u) = P_ u.
Proof.
  unfold SigmaPointPrediction.
  apply (for_range_preserves
           (fun s => other_fields s = other_fields u /\ x_ s = x_ u /\ P_ s = P_ u)).
  - intros i s Hs. exact Hs.
  - repeat split.
Qed.

Lemma other_fields_PredictMeanAndCovariance (u : UKF) :
  other_fields (PredictMeanAndCovariance u) = other_fields u /\
  Xsig_pred_ (PredictMeanAndCovariance u) = Xsig_pred_ u.
Proof.
  unfold PredictMeanAndCovariance.
  apply (for_range_preserves
           (fun s => other_fields s = other_fields u /\ Xsig_pred_ s = Xsig_pred_ u)).
  - intros i s Hs. exact Hs.
  - cbn [set_P_ other_fields is_initialized_ use_laser_ use_radar_ time_us_ std_a_
         std_yawdd_ std_laspx_ std_laspy_ std_radr_ std_radphi_ std_radrd_ weights_
         n_x_ n_aug_ lambda_ NIS_radar_ NIS_laser_ H_laser_ R_laser_ R_radar_ Xsig_pred_].
    apply (for_range_preserves
             (fun s => other_fields s = other_fields u /\ Xsig_pred_ s = Xsig_pred_ u)).
    + intros i s Hs. exact Hs.
    + repeat split.
Qed.

Lemma other_fields_Prediction (delta_t : R) (u : UKF) :
  other_fields (Prediction delta_t u) = other_fields u.
Proof.
  unfold Prediction.
  rewrite (proj1 (other_fields_PredictMeanAndCovariance _)).
  apply other_fields_SigmaPointPrediction.
Qed.

Lemma time_us_Prediction (delta_t : R) (u : UKF) :
  time_us_ (Prediction delta_t u) = time_us_ u.
Proof.
  pose proof (other_fields_Prediction delta_t u) as H.
  unfold other_fields in H. congruence.
Qed.

Lemma is_initialized_Prediction (delta_t : R) (u : UKF) :
  is_initialized_ (Prediction delta_t u) = is_initialized_ u.
Proof.
  pose proof (other_fields_Prediction delta_t u) as H.
  unfold other_fields in H. congruence.
Qed.

Lemma NIS_Prediction (delta_t : R) (u : UKF) :
  NIS_laser_ (Prediction delta_t u) = NIS_laser_ u /\
  NIS_radar_ (Prediction delta_t u) = NIS_radar_ u.
Proof.
  pose proof (other_fields_Prediction delta_t u) as H.
  unfold other_fields in H. split; congruence.
Qed.

Lemma constructed_parameters (u u' : UKF) :
  parameters u' = parameters u -> constructed u -> constructed u'.
Proof.
  intros H [Hx Ha Hl Hw HH HRl HRr]. unfold parameters in H.
  assert (E1 : n_x_ u' = n_x_ u) by congruence.
  assert (E2 : n_aug_ u' = n_aug_ u) by congruence.
  assert (E3 : lambda_ u' = lambda_ u) by congruence.
  assert (E4 : weights_ u' = weights_ u) by congruence.
  assert (E5 : H_laser_ u' = H_laser_ u) by congruence.
  assert (E6 : R_laser_ u' = R_laser_ u) by congruence.
  assert (E7 : R_radar_ u' = R_radar_ u) by congruence.
  split.
  - rewrite E1. exact Hx.
  - rewrite E2. exact Ha.
  - rewrite E3. exact Hl.
  - intros i Hi. rewrite E4, (Hw i Hi), !weights_UKF_UKF by exact Hi. reflexivity.
  - intros r c Hr Hc. rewrite E5. exact (HH r c Hr Hc).
  - intros r c Hr Hc. rewrite E6. exact (HRl r c Hr Hc).
  - intros r c Hr Hc. rewrite E7. exact (HRr r c Hr Hc).
Qed.

Lemma parameters_Prediction (delta_t : R) (u : UKF) :
  parameters (Prediction delta_t u) = parameters u.
Proof.
  pose proof (other_fields_Prediction delta_t u) as H.
  unfold other_fields in H. congruence.
Qed.

(** The parameters are never written after construction. *)
Lemma parameters_ProcessMeasurement {lm : Libm} (m : MeasurementPackage) (u : UKF) :
  parameters (fst (ProcessMeasurement m u)) = parameters u.
Proof.
  unfold ProcessMeasurement.
  destruct (is_initialized_ u); cbn [negb].
  - pose proof (parameters_Prediction
                  (to_float (IZR (timestamp_ m - time_us_ u) / 1000000))
                  (set_time_us_ u (timestamp_ m))) as Hp.
    change (parameters (set_time_us_ u (timestamp_ m))) with (parameters u) in Hp.
    set (u1 := Prediction _ _) in *.
    destruct (sensor_type_ m).
    + destruct (use_laser_ u1); cbn [negb fst]; exact Hp.
    + destruct (use_radar_ u1); cbn [negb fst]; exact Hp.
    + exact Hp.
  - destruct (sensor_type_ m); cbv zeta; cbn [fst];
      try match goal with |- context [is_zero ?a && is_zero ?b] =>
            destruct (is_zero a && is_zero b) end; reflexivity.
Qed.

Lemma constructed_ProcessMeasurement {lm : Libm} (m : MeasurementPackage) (u : UKF) :
  constructed u -> constructed (fst (ProcessMeasurement m u)).
Proof.
  apply constructed_parameters, parameters_ProcessMeasurement.
Qed.

(** ** The first measurement *)

Lemma is_zero_true (a : R) : is_zero a = true <-> a = 0.
Proof.
  unfold is_zero. destruct (Req_dec_T a 0); split; intros H;
    (assumption || reflexivity || discriminate || contradiction).
Qed.

Lemma is_zero_false (a : R) : is_zero a = false <-> a <> 0.
Proof.
  unfold is_zero. destruct (Req_dec_T a 0); split; intros H;
    (assumption || reflexivity || discriminate || contradiction).
Qed.

(** The bootstrap branch in terms of [bootstrap_position]. *)
Lemma ProcessMeasurement_first {lm : Libm} (m : MeasurementPackage) (u : UKF) (px py : R) :
  is_initialized_ u = false ->
  bootstrap_position m = Some (px, py) ->
  ProcessMeasurement m u =
  (let u1 := set_x_ u (comma_init [px; py; 0; 0; 0]) in
   if is_zero px && is_zero py then u1
   else set_is_initialized_ (set_time_us_ (set_P_ u1 identity) (timestamp_ m)) true,
   m).
Proof.
  intros Hu Hpos. unfold ProcessMeasurement, bootstrap_position in *.
  rewrite Hu. cbn [negb]. cbv zeta in Hpos.
  destruct (sensor_type_ m); try discriminate;
    injection Hpos as <- <-; cbv zeta; cbn [x_ set_x_ comma_init nth];
    match goal with |- context [is_zero ?a && is_zero ?b] =>
      destruct (is_zero a && is_zero b) end; reflexivity.
Qed.

(** The positions of the readings named in the statements below. *)
Lemma bootstrap_position_lidar {lm : Libm} (t : Z) (px py : R) :
  bootstrap_position (lidar_pkg t px py) = Some (to_float px, to_float py).
Proof.
  reflexivity.
Qed.

Lemma bootstrap_position_radar {lm : Libm} (m : MeasurementPackage) :
  sensor_type_ m = RADAR ->
  bootstrap_position m =
  Some (fmul (to_float (raw_measurements_ m 0%nat))
             (cosf (to_float (raw_measurements_ m 1%nat))),
        fmul (to_float (raw_measurements_ m 0%nat))
             (sinf (to_float (raw_measurements_ m 1%nat)))).
Proof.
  intros Hm. unfold bootstrap_position. rewrite Hm. reflexivity.
Qed.

Lemma bootstrap_position_radar_5_0 {lm : Libm} (t : Z) (rho_dot : R) :
  cosf 0 = 1 -> sinf 0 = 0 ->
  bootstrap_position (radar_pkg t 5 0 rho_dot) = Some (5, 0).
Proof.
  intros Hc Hs. rewrite bootstrap_position_radar by reflexivity.
  cbn [raw_measurements_ radar_pkg comma_init nth].
  rewrite to_float_5, to_float_0, Hc, Hs. unfold fmul.
  rewrite Rmult_1_r, Rmult_0_r, to_float_5, to_float_0. reflexivity.
Qed.

Lemma bootstrap_position_zero_range {lm : Libm} (m : MeasurementPackage) :
  sensor_type_ m = RADAR -> raw_measurements_ m 0%nat = 0 ->
  bootstrap_position m = Some (0, 0).
Proof.
  intros Hm H0. rewrite bootstrap_position_radar by exact Hm.
  rewrite H0, to_float_0, !fmul_0_l. reflexivity.
Qed.

Lemma bootstrap_position_zero_lidar {lm : Libm} (m : MeasurementPackage) :
  sensor_type_ m = LASER ->
  raw_measurements_ m 0%nat = 0 -> raw_measurements_ m 1%nat = 0 ->
  bootstrap_position m = Some (0, 0).
Proof.
  intros Hm H0 H1. unfold bootstrap_position.
  rewrite Hm, H0, H1, to_float_0. reflexivity.
Qed.

(** An accepted first measurement. *)
Lemma bootstrap_accepted {lm : Libm} (m : MeasurementPackage) (u : UKF) (px py : R) :
  is_initialized_ u = false ->
  bootstrap_position m = Some (px, py) ->
  px <> 0 \/ py <> 0 ->
  bootstrapped_at px py (timestamp_ m) u (fst (ProcessMeasurement m u)) /\
  snd (ProcessMeasurement m u) = m.
Proof.
  intros Hu Hpos Hnz.
  rewrite (ProcessMeasurement_first m u px py Hu Hpos). cbv zeta. cbn [fst snd].
  assert (Hz : is_zero px && is_zero py = false).
  { apply andb_false_iff. destruct Hnz as [H | H]; [left | right];
      apply is_zero_false, H. }
  rewrite Hz. split; [| reflexivity].
  split; reflexivity.
Qed.

(** A rejected first measurement. *)
Lemma bootstrap_rejected {lm : Libm} (m : MeasurementPackage) (u : UKF) :
  is_initialized_ u = false ->
  bootstrap_position m = Some (0, 0) ->
  ProcessMeasurement m u = (set_x_ u (comma_init [0; 0; 0; 0; 0]), m).
Proof.
  intros Hu Hpos.
  rewrite (ProcessMeasurement_first m u 0 0 Hu Hpos). cbv zeta.
  assert (Hz : is_zero 0 && is_zero 0 = true).
  { apply andb_true_iff. split; apply is_zero_true; reflexivity. }
  rewrite Hz. reflexivity.
Qed.

(** A radar reading of range zero is in the finite range whatever its
    bearing converts to. *)
Lemma finite_reading_zero_range {lm : Libm} (t : Z) (phi rho_dot : R) :
  finite phi -> finite_reading (radar_pkg t 0 phi rho_dot).
Proof.
  intros Hphi.
  assert (H0 : finite 0) by (apply finite_small; rewrite Rabs_R0; lra).
  split; [exact H0 |]. split; [exact Hphi |]. intros _.
  cbn [raw_measurements_ radar_pkg comma_init nth].
  rewrite to_float_0, !Rmult_0_l. split; exact H0.
Qed.

Lemma finite_1 : finite 1.
Proof.
  apply finite_small. rewrite Rabs_R1. lra.
Qed.

(** C7, as stated, fails in its general formula: [rho], [phi], [px] and
    [py] are [float] variables, so the stored position is the
    single-precision one.  A first radar reading with [rho = 2^24 + 1] and
    [phi = 0] is accepted and stores [px = 2^24], not [rho * cos(phi)]. *)
Lemma bootstrap_position_is_single_precision :
  is_initialized_ fresh = false /\
  finite_reading (lm := libm32) (radar_pkg 0 16777217 0 0) /\
  is_initialized_
    (fst (ProcessMeasurement (lm := libm32) (radar_pkg 0 16777217 0 0) fresh)) = true /\
  x_ (fst (ProcessMeasurement (lm := libm32) (radar_pkg 0 16777217 0 0) fresh)) 0%nat
  <> 16777217 * cos 0.
Proof.
  destruct libm32_at_0 as [Hc Hs].
  assert (Hpos : bootstrap_position (lm := libm32) (radar_pkg 0 16777217 0 0)
                 = Some (16777216, 0)).
  { rewrite bootstrap_position_radar by reflexivity.
    cbn [raw_measurements_ radar_pkg comma_init nth].
    rewrite to_float_16777217, to_float_0, Hc, Hs. unfold fmul.
    rewrite Rmult_1_r, Rmult_0_r, to_float_16777216, to_float_0. reflexivity. }
  assert (Hnz : 16777216 <> 0 \/ 0 <> 0) by (left; lra).
  destruct (bootstrap_accepted (lm := libm32) (radar_pkg 0 16777217 0 0) fresh
              16777216 0 eq_refl Hpos Hnz) as [[Hx _ _ Hi _ _ _] _].
  split; [reflexivity |]. split; [| split; [exact Hi |]].
  - split; [| split].
    + apply finite_small. cbn [raw_measurements_ radar_pkg comma_init nth].
      rewrite Rabs_right; lra.
    + apply finite_small. cbn [raw_measurements_ radar_pkg comma_init nth].
      rewrite Rabs_R0. lra.
    + intros _. cbn [raw_measurements_ radar_pkg comma_init nth].
      rewrite to_float_16777217, to_float_0, Hc, Hs, Rmult_1_r, Rmult_0_r.
      split; apply finite_small; [rewrite Rabs_right | rewrite Rabs_R0]; lra.
  - rewrite Hx, cos_0. cbn. lra.
Qed.

(** C7 (amended): on the first accepted measurement (finite raw values,
    stored position not [(0,0)]) the state is [x = [px, py, 0, 0, 0]] with
    [px], [py] the single-precision values the code computes: for radar the
    [float] product of [rho] with [cosf(phi)] and with [sinf(phi)], for
    lidar the raw position narrowed to [float].  [P] is the identity, the
    timestamp is stored, the filter is initialized, and neither the cached
    sigma points nor the NIS values are touched (no prediction, no update).
    Radar [(rho, phi) = (5, 0)] gives exactly [x = [5,0,0,0,0]] (with
    [cosf(0) = 1], [sinf(0) = 0]) and lidar [(3, 4)] exactly
    [x = [3,4,0,0,0]]. *)
Theorem first_measurement_bootstraps {lm : Libm} (u : UKF) (t : Z) :
  is_initialized_ u = false ->
  (forall m px py,
      timestamp_ m = t ->
      finite_reading m ->
      bootstrap_position m = Some (px, py) ->
      px <> 0 \/ py <> 0 ->
      bootstrapped_at px py t u (fst (ProcessMeasurement m u)) /\
      snd (ProcessMeasurement m u) = m) /\
  (forall m,
      sensor_type_ m = RADAR ->
      bootstrap_position m =
      Some (fmul (to_float (raw_measurements_ m 0%nat))
                 (cosf (to_float (raw_measurements_ m 1%nat))),
            fmul (to_float (raw_measurements_ m 0%nat))
                 (sinf (to_float (raw_measurements_ m 1%nat))))) /\
  (forall m,
      sensor_type_ m = LASER ->
      bootstrap_position m =
      Some (to_float (raw_measurements_ m 0%nat),
            to_float (raw_measurements_ m 1%nat))) /\
  (cosf 0 = 1 -> sinf 0 = 0 ->
   forall rho_dot,
     bootstrapped_at 5 0 t u (fst (ProcessMeasurement (radar_pkg t 5 0 rho_dot) u))) /\
  bootstrapped_at 3 4 t u (fst (ProcessMeasurement (lidar_pkg t 3 4) u)).
Proof.
  intros Hu. split; [| split; [| split; [| split]]].
  - intros m px py Ht _ Hpos Hnz. rewrite <- Ht.
    apply bootstrap_accepted; assumption.
  - intros m Hm. apply bootstrap_position_radar, Hm.
  - intros m Hm. unfold bootstrap_position. rewrite Hm. reflexivity.
  - intros Hc Hs rho_dot.
    apply (bootstrap_accepted (radar_pkg t 5 0 rho_dot) u 5 0 Hu).
    + apply bootstrap_position_radar_5_0; assumption.
    + left. lra.
  - apply (bootstrap_accepted (lidar_pkg t 3 4) u 3 4 Hu).
    + rewrite bootstrap_position_lidar, to_float_3, to_float_4. reflexivity.
    + left. lra.
Qed.

Lemma first_measurement_bootstraps_witness :
  is_initialized_ fresh = false /\
  cosf (Libm := libm32) 0 = 1 /\ sinf (Libm := libm32) 0 = 0 /\
  bootstrapped_at 5 0 7 fresh
    (fst (ProcessMeasurement (lm := libm32) (radar_pkg 7 5 0 1) fresh)).
Proof.
  split; [reflexivity |].
  split; [exact (proj1 libm32_at_0) |]. split; [exact (proj2 libm32_at_0) |].
  exact (proj1 (proj2 (proj2 (proj2
           (first_measurement_bootstraps (lm := libm32) fresh 7%Z eq_refl))))
           (proj1 libm32_at_0) (proj2 libm32_at_0) 1).
Defined.

(** C2, as stated, fails: the candidate state is written to [x_] before the
    test for the origin, so a rejected first measurement leaves
    [x = [0,0,0,0,0]] and not the previous content of [x_]. *)
Lemma rejected_bootstrap_overwrites_x :
  is_initialized_ fresh_on_used_memory = false /\
  bootstrap_position (lm := libm32) (lidar_pkg 0 0 0) = Some (0, 0) /\
  is_initialized_
    (fst (ProcessMeasurement (lm := libm32) (lidar_pkg 0 0 0) fresh_on_used_memory))
  = false /\
  x_ (fst (ProcessMeasurement (lm := libm32) (lidar_pkg 0 0 0) fresh_on_used_memory)) 0%nat
  <> x_ fresh_on_used_memory 0%nat.
Proof.
  assert (Hu : is_initialized_ fresh_on_used_memory = false) by reflexivity.
  assert (Hp : bootstrap_position (lm := libm32) (lidar_pkg 0 0 0) = Some (0, 0))
    by (apply bootstrap_position_zero_lidar; reflexivity).
  rewrite (bootstrap_rejected _ _ Hu Hp). cbn [fst].
  repeat split; [exact Hp |]. cbn. lra.
Qed.

(** C2 (amended): a first measurement (finite raw values) whose derived
    position is exactly [(0,0)] - lidar with [px = py = 0], radar with
    [rho = 0], or any other reading the code maps to the origin - is
    rejected: the filter stays uninitialized and [P], the stored timestamp,
    the cached sigma points and every other field keep their values; [x]
    does not, it holds the rejected candidate [[0,0,0,0,0]].  The
    measurement is not written to. *)
Theorem degenerate_bootstrap_rejected {lm : Libm} (m : MeasurementPackage) (u : UKF) :
  is_initialized_ u = false ->
  finite_reading m ->
  (sensor_type_ m = LASER /\
   raw_measurements_ m 0%nat = 0 /\ raw_measurements_ m 1%nat = 0) \/
  (sensor_type_ m = RADAR /\ raw_measurements_ m 0%nat = 0) \/
  bootstrap_position m = Some (0, 0) ->
  let u' := fst (ProcessMeasurement m u) in
  bootstrap_position m = Some (0, 0) /\
  is_initialized_ u' = false /\
  P_ u' = P_ u /\
  time_us_ u' = time_us_ u /\
  Xsig_pred_ u' = Xsig_pred_ u /\
  other_fields u' = other_fields u /\
  x_ u' = comma_init [0; 0; 0; 0; 0] /\
  snd (ProcessMeasurement m u) = m.
Proof.
  intros Hu _ Hzero. cbv zeta.
  assert (Hpos : bootstrap_position m = Some (0, 0)).
  { destruct Hzero as [(Hm & H0 & H1) | [(Hm & H0) | H]].
    - apply bootstrap_position_zero_lidar; assumption.
    - apply bootstrap_position_zero_range; assumption.
    - exact H. }
  rewrite (bootstrap_rejected m u Hu Hpos). cbn [fst snd].
  repeat split; [exact Hpos | exact Hu].
Qed.

Lemma degenerate_bootstrap_rejected_witness :
  is_initialized_ fresh = false /\
  finite_reading (lm := libm32) (radar_pkg 0 0 1 2) /\
  (sensor_type_ (radar_pkg 0 0 1 2) = RADAR /\ raw_measurements_ (radar_pkg 0 0 1 2) 0%nat = 0) /\
  is_initialized_ (fst (ProcessMeasurement (lm := libm32) (radar_pkg 0 0 1 2) fresh)) = false.
Proof.
  assert (Hf : finite_reading (lm := libm32) (radar_pkg 0 0 1 2))
    by exact (finite_reading_zero_range 0 1 2 finite_1).
  split; [reflexivity |]. split; [exact Hf |]. split; [split; reflexivity |].
  exact (proj1 (proj2 (degenerate_bootstrap_rejected (lm := libm32) (radar_pkg 0 0 1 2) fresh
                         eq_refl Hf (or_intror (or_introl (conj eq_refl eq_refl)))))).
Defined.

(** ** A measurement of unknown kind *)

Lemma tracking_initialized : is_initialized_ tracking = true /\ time_us_ tracking = 0%Z.
Proof.
  assert (Hpos : bootstrap_position (lm := libm32) (lidar_pkg 0 3 4) = Some (3, 4))
    by (rewrite bootstrap_position_lidar, to_float_3, to_float_4; reflexivity).
  assert (Hnz : 3 <> 0 \/ 4 <> 0) by (left; lra).
  destruct (bootstrap_accepted (lm := libm32) (lidar_pkg 0 3 4) fresh 3 4 eq_refl Hpos Hnz)
    as [[_ _ Ht Hi _ _ _] _].
  split; [exact Hi | exact Ht].
Qed.

(** C1, as stated, fails: once the filter is initialized the prediction
    runs before the sensor kind is looked at, so a measurement of unknown
    kind still moves the stored timestamp (and the estimate with it). *)
Lemma unknown_kind_advances_time :
  is_initialized_ tracking = true /\
  sensor_type_ (other_pkg 1) = OTHER /\
  time_us_ (fst (ProcessMeasurement (lm := libm32) (other_pkg 1) tracking))
  <> time_us_ tracking.
Proof.
  destruct tracking_initialized as [Hi Ht].
  split; [exact Hi |]. split; [reflexivity |].
  unfold ProcessMeasurement. rewrite Hi. cbn [negb sensor_type_ other_pkg fst].
  rewrite time_us_Prediction, Ht. cbn. discriminate.
Qed.

(** C1 (amended): a measurement of unknown kind is skipped with no state
    mutation while the filter is uninitialized.  Once the filter is
    initialized the measurement only skips the update: the timestamp is
    stored and the prediction over the elapsed time runs, as for a disabled
    sensor, so [x], [P] and the cached sigma points are those of the
    prediction; the NIS values, the flag and the measurement are unchanged. *)
Theorem unknown_kind_skips_update {lm : Libm} (m : MeasurementPackage) (u : UKF) :
  sensor_type_ m = OTHER ->
  (is_initialized_ u = false -> ProcessMeasurement m u = (u, m)) /\
  (is_initialized_ u = true ->
   let dt := to_float (IZR (timestamp_ m - time_us_ u) / 1000000) in
   let u' := fst (ProcessMeasurement m u) in
   u' = Prediction dt (set_time_us_ u (timestamp_ m)) /\
   time_us_ u' = timestamp_ m /\
   is_initialized_ u' = true /\
   NIS_laser_ u' = NIS_laser_ u /\
   NIS_radar_ u' = NIS_radar_ u /\
   snd (ProcessMeasurement m u) = m).
Proof.
  intros Hm. split; intros Hu.
  - unfold ProcessMeasurement. rewrite Hu, Hm. reflexivity.
  - cbv zeta. unfold ProcessMeasurement. rewrite Hu, Hm. cbn [negb fst snd].
    split; [reflexivity |].
    rewrite time_us_Prediction, is_initialized_Prediction.
    destruct (NIS_Prediction (to_float (IZR (timestamp_ m - time_us_ u) / 1000000))
                (set_time_us_ u (timestamp_ m))) as [Hl Hr].
    rewrite Hl, Hr. repeat split. exact Hu.
Qed.

Lemma unknown_kind_skips_update_witness :
  sensor_type_ (other_pkg 1) = OTHER /\
  is_initialized_ tracking = true /\
  time_us_ (fst (ProcessMeasurement (lm := libm32) (other_pkg 1) tracking)) = 1%Z.
Proof.
  split; [reflexivity |]. split; [exact (proj1 tracking_initialized) |].
  exact (proj1 (proj2 (proj2 (unknown_kind_skips_update (lm := libm32) (other_pkg 1)
                                 tracking eq_refl)
                         (proj1 tracking_initialized)))).
Defined.

(** ** The guarded divisions *)

Lemma checked_div_nonzero (a b : R) : b <> 0 -> checked_div a b = Some (a / b).
Proof.
  intros Hb. unfold checked_div.
  destruct (Req_dec_T b 0) as [E | _]; [contradiction | reflexivity].
Qed.

Lemma Rabs_gt_nonzero (a eps : R) : 0 <= eps -> Rabs a > eps -> a <> 0.
Proof.
  intros Heps Ha E. rewrite E, Rabs_R0 in Ha. lra.
Qed.

(** C9: both divisions are guarded, at the thresholds 0.001 and 0.0001.
    In the propagation of a sigma point the position is defined without
    reaching a division by zero; for [|yawd| <= 0.001] it is the
    straight-line [p_x + v*dt*cos(yaw)], [p_y + v*dt*sin(yaw)], above the
    threshold the turning formula that divides by [yawd]; the loop body
    stores that position plus the noise terms.  In the radar model the range
    rate is defined without reaching a division by zero; for
    [sqrt(p_x^2+p_y^2) <= 0.0001] it is 0, above the threshold the quotient
    by the range; the loop body stores that value. *)
Theorem divisions_guarded :
  (forall (delta_t : R) (Xsig_aug : MatrixXd) (i : nat) (u : UKF),
      let p_x := Xsig_aug 0%nat i in
      let p_y := Xsig_aug 1%nat i in
      let v := Xsig_aug 2%nat i in
      let yaw := Xsig_aug 3%nat i in
      let yawd := Xsig_aug 4%nat i in
      let nu_a := Xsig_aug 5%nat i in
      let u' := SigmaPointPrediction_body delta_t Xsig_aug i u in
      exists px_p py_p,
        ctrv_position_checked delta_t p_x p_y v yaw yawd = Some (px_p, py_p) /\
        Xsig_pred_ u' 0%nat i = px_p + 0.5 * nu_a * (delta_t * delta_t) * cos yaw /\
        Xsig_pred_ u' 1%nat i = py_p + 0.5 * nu_a * (delta_t * delta_t) * sin yaw /\
        (Rabs yawd <= 0.001 ->
         px_p = p_x + v * delta_t * cos yaw /\ py_p = p_y + v * delta_t * sin yaw) /\
        (Rabs yawd > 0.001 ->
         yawd <> 0 /\
         px_p = p_x + v / yawd * (sin (yaw + yawd * delta_t) - sin yaw) /\
         py_p = p_y + v / yawd * (cos yaw - cos (yaw + yawd * delta_t)))) /\
  (forall (Xsig_pred : MatrixXd) (i : nat) (Zsig : MatrixXd),
      let p_x := Xsig_pred 0%nat i in
      let p_y := Xsig_pred 1%nat i in
      let v := Xsig_pred 2%nat i in
      let yaw := Xsig_pred 3%nat i in
      let rho := sqrt (p_x * p_x + p_y * p_y) in
      exists rho_dot,
        rho_dot_checked p_x p_y v yaw = Some rho_dot /\
        UpdateRadar_model Xsig_pred i Zsig 2%nat i = rho_dot /\
        (rho <= 0.0001 -> rho_dot = 0) /\
        (rho > 0.0001 ->
         rho <> 0 /\ rho_dot = (p_x * (cos yaw * v) + p_y * (sin yaw * v)) / rho)).
Proof.
  split.
  - intros delta_t Xsig_aug i u. cbv zeta.
    unfold ctrv_position_checked, SigmaPointPrediction_body.
    cbn [Xsig_pred_ set_Xsig_pred_]. unfold mset. cbn [Nat.eqb andb].
    rewrite Nat.eqb_refl.
    destruct (Rgt_dec (Rabs (Xsig_aug 4%nat i)) 0.001) as [Hgt | Hle].
    + assert (Hnz : Xsig_aug 4%nat i <> 0)
        by (apply (Rabs_gt_nonzero _ 0.001); [lra | exact Hgt]).
      rewrite checked_div_nonzero by exact Hnz.
      eexists. eexists. split; [reflexivity |].
      split; [reflexivity |]. split; [reflexivity |]. split.
      * intros Hsmall. lra.
      * intros _. split; [exact Hnz |]. split; reflexivity.
    + eexists. eexists. split; [reflexivity |].
      split; [reflexivity |]. split; [reflexivity |]. split.
      * intros _. split; reflexivity.
      * intros Hgt. contradiction.
  - intros Xsig_pred i Zsig. cbv zeta.
    unfold rho_dot_checked, UpdateRadar_model, mset. cbn [Nat.eqb andb].
    rewrite Nat.eqb_refl.
    set (c1 := sqrt (Xsig_pred 0%nat i * Xsig_pred 0%nat i
                     + Xsig_pred 1%nat i * Xsig_pred 1%nat i)).
    assert (Habs : Rabs c1 = c1) by (apply Rabs_pos_eq, sqrt_pos).
    destruct (Rgt_dec (Rabs c1) 0.0001) as [Hgt | Hle].
    + assert (Hnz : c1 <> 0)
        by (apply (Rabs_gt_nonzero _ 0.0001); [lra | exact Hgt]).
      rewrite checked_div_nonzero by exact Hnz.
      eexists. split; [reflexivity |]. split; [reflexivity |]. split.
      * intros Hsmall. exfalso. rewrite Habs in Hgt. lra.
      * intros _. split; [exact Hnz | reflexivity].
    + eexists. split; [reflexivity |]. split; [reflexivity |]. split.
      * intros _. reflexivity.
      * intros Hgt. exfalso. apply Hle. rewrite Habs. exact Hgt.
Qed.

Lemma divisions_guarded_witness :
  Rabs (mzero 4%nat 0%nat) <= 0.001 /\
  exists px_p py_p,
    ctrv_position_checked 1 0 0 0 0 0 = Some (px_p, py_p) /\
    px_p = 0 + 0 * 1 * cos 0 /\ py_p = 0 + 0 * 1 * sin 0.
Proof.
  assert (H : Rabs (mzero 4%nat 0%nat) <= 0.001).
  { unfold mzero. rewrite Rabs_R0. lra. }
  split; [exact H |].
  destruct (proj1 divisions_guarded 1 mzero 0%nat fresh)
    as (px_p & py_p & Hc & _ & _ & Hs & _).
  exists px_p, py_p. split; [exact Hc | exact (Hs H)].
Defined.

(** ** Lidar update at the predicted measurement *)

Lemma constructed_H_laser (u : UKF) (r c : nat) :
  constructed u -> (r < 2)%nat -> (c < 5)%nat -> H_laser_ u r c = identity r c.
Proof.
  intros Hc Hr Hcc. rewrite (c_H_laser u Hc r c Hr Hcc). reflexivity.
Qed.

Lemma sum_n_zero (n : nat) (f : nat -> R) :
  (forall l, (l < n)%nat -> f l = 0) -> sum_n n f = 0.
Proof.
  induction n as [| n IH]; intros Hf; simpl.
  - reflexivity.
  - rewrite IH by (intros l Hl; apply Hf; lia). rewrite Hf by lia. ring.
Qed.

Lemma lidar_projection (u : UKF) :
  constructed u ->
  mvmul (n_x_ u) (H_laser_ u) (x_ u) 0%nat = x_ u 0%nat /\
  mvmul (n_x_ u) (H_laser_ u) (x_ u) 1%nat = x_ u 1%nat.
Proof.
  intros Hc. destruct (constructed_dims u Hc) as (Hn & _ & _).
  rewrite Hn. unfold mvmul. cbv [sum_n].
  rewrite !(constructed_H_laser u) by (assumption || lia).
  cbv [identity Nat.eqb]. split; ring.
Qed.

(** C10: when the lidar measurement equals the predicted projection
    [(px, py)] of [x], the innovation [z - H*x] is zero, [x] is unchanged,
    and the stored lidar NIS, computed as
    [innovation^T * S^{-1} * innovation], is 0. *)
Theorem UpdateLidar_at_prediction (z : VectorXd) (u : UKF) :
  constructed u ->
  z 0%nat = x_ u 0%nat ->
  z 1%nat = x_ u 1%nat ->
  let z_pred := mvmul (n_x_ u) (H_laser_ u) (x_ u) in
  let y := vsub z z_pred in
  let S := madd (mmul (n_x_ u) (mmul (n_x_ u) (H_laser_ u) (P_ u))
                   (transpose (H_laser_ u))) (R_laser_ u) in
  (forall i, (i < 2)%nat -> y i = 0) /\
  (forall i, x_ (UpdateLidar z u) i = x_ u i) /\
  NIS_laser_ (UpdateLidar z u) = dot 2 (vmmul 2 y (inverse 2 S)) y /\
  NIS_laser_ (UpdateLidar z u) = 0.
Proof.
  intros Hc Hz0 Hz1. cbv zeta.
  destruct (lidar_projection u Hc) as [Hp0 Hp1].
  assert (Hy : forall i, (i < 2)%nat ->
                 vsub z (mvmul (n_x_ u) (H_laser_ u) (x_ u)) i = 0).
  { intros i Hi. unfold vsub.
    destruct i as [| [| i]]; [rewrite Hp0, Hz0 | rewrite Hp1, Hz1 | lia]; ring. }
  split; [exact Hy |]. split; [| split].
  - intros i. unfold UpdateLidar. cbn [x_ set_x_ set_P_ set_NIS_laser_].
    unfold vadd. unfold mvmul at 1.
    rewrite sum_n_zero; [ring |].
    intros l Hl. rewrite (Hy l Hl). ring.
  - reflexivity.
  - unfold UpdateLidar. cbn [NIS_laser_ set_NIS_laser_].
    unfold NIS, dot. apply sum_n_zero.
    intros l Hl. cbn [n_x_ set_x_ H_laser_ x_]. rewrite (Hy l Hl). ring.
Qed.

Lemma constructed_estimate_3_4 : constructed estimate_3_4.
Proof.
  apply (constructed_parameters fresh); [reflexivity | apply constructed_UKF_UKF].
Qed.

Lemma UpdateLidar_at_prediction_witness :
  constructed estimate_3_4 /\
  comma_init [3; 4] 0%nat = x_ estimate_3_4 0%nat /\
  comma_init [3; 4] 1%nat = x_ estimate_3_4 1%nat /\
  NIS_laser_ (UpdateLidar (comma_init [3; 4]) estimate_3_4) = 0.
Proof.
  split; [exact constructed_estimate_3_4 |].
  split; [reflexivity |]. split; [reflexivity |].
  exact (proj2 (proj2 (proj2
           (UpdateLidar_at_prediction (comma_init [3; 4]) estimate_3_4
              constructed_estimate_3_4 eq_refl eq_refl)))).
Defined.

(** ** Symmetry of the updated covariance *)

Lemma inverse_2_symmetric (S : MatrixXd) :
  symmetric 2 S -> symmetric 2 (inverse 2 S).
Proof.
  intros HS r c Hr Hc. unfold inverse.
  destruct r as [| [| r]], c as [| [| c]]; try lia; try reflexivity;
    cbv [minor det sum_n Nat.sub Nat.ltb Nat.leb Nat.add];
    rewrite (HS 1%nat 0%nat) by lia; reflexivity.
Qed.

(** For a matrix with non-zero determinant the modelled [inverse] is the
    inverse (sizes 2 and 3, the ones the filter uses). *)
Lemma inverse_2_correct (A : MatrixXd) (r c : nat) :
  det 2 A <> 0 -> (r < 2)%nat -> (c < 2)%nat ->
  mmul 2 A (inverse 2 A) r c = identity r c.
Proof.
  intros Hd Hr Hc. unfold mmul, inverse. revert Hd.
  destruct r as [| [| r]], c as [| [| c]]; try lia;
    cbv [minor det sum_n Nat.sub Nat.ltb Nat.leb Nat.add identity Nat.eqb];
    intros Hd; field; intros E; apply Hd;
    match type of E with ?y = 0 => transitivity y; [ring | exact E] end.
Qed.

Lemma inverse_3_correct (A : MatrixXd) (r c : nat) :
  det 3 A <> 0 -> (r < 3)%nat -> (c < 3)%nat ->
  mmul 3 A (inverse 3 A) r c = identity r c.
Proof.
  intros Hd Hr Hc. unfold mmul, inverse. revert Hd.
  destruct r as [| [| [| r]]], c as [| [| [| c]]]; try lia;
    cbv [minor det sum_n Nat.sub Nat.ltb Nat.leb Nat.add identity Nat.eqb];
    intros Hd; field; intros E; apply Hd;
    match type of E with ?y = 0 => transitivity y; [ring | exact E] end.
Qed.

Lemma constructed_R_laser (u : UKF) : constructed u -> symmetric 2 (R_laser_ u).
Proof.
  intros Hc r c Hr Hcc.
  rewrite (c_R_laser u Hc r c Hr Hcc), (c_R_laser u Hc c r Hcc Hr).
  unfold UKF_UKF. cbn [R_laser_].
  destruct r as [| [| r]], c as [| [| c]]; try lia; reflexivity.
Qed.

Lemma constructed_R_radar (u : UKF) : constructed u -> symmetric 3 (R_radar_ u).
Proof.
  intros Hc r c Hr Hcc.
  rewrite (c_R_radar u Hc r c Hr Hcc), (c_R_radar u Hc c r Hcc Hr).
  unfold UKF_UKF. cbn [R_radar_].
  destruct r as [| [| [| r]]], c as [| [| [| c]]]; try lia; reflexivity.
Qed.

(** With [H_laser_] the 2 x 5 identity, [H*P*Ht] is the leading block of [P]
    and [P*Ht] its first two columns. *)
Lemma lidar_HPHt (u : UKF) (r c : nat) :
  constructed u -> (r < 2)%nat -> (c < 2)%nat ->
  mmul (n_x_ u) (mmul (n_x_ u) (H_laser_ u) (P_ u)) (transpose (H_laser_ u)) r c
  = P_ u r c.
Proof.
  intros Hc Hr Hcc. destruct (constructed_dims u Hc) as (Hn & _ & _).
  rewrite Hn. unfold mmul, transpose. cbv [sum_n].
  rewrite !(constructed_H_laser u) by (assumption || lia).
  destruct r as [| [| r]], c as [| [| c]]; try lia;
    cbv [identity Nat.eqb]; ring.
Qed.

Lemma lidar_PHt (u : UKF) (r c : nat) :
  constructed u -> (c < 2)%nat ->
  mmul (n_x_ u) (P_ u) (transpose (H_laser_ u)) r c = P_ u r c.
Proof.
  intros Hc Hcc. destruct (constructed_dims u Hc) as (Hn & _ & _).
  rewrite Hn. unfold mmul, transpose. cbv [sum_n].
  rewrite !(constructed_H_laser u) by (assumption || lia).
  destruct c as [| [| c]]; try lia; cbv [identity Nat.eqb]; ring.
Qed.

Lemma lidar_S_symmetric (u : UKF) :
  constructed u -> symmetric 5 (P_ u) ->
  symmetric 2 (madd (mmul (n_x_ u) (mmul (n_x_ u) (H_laser_ u) (P_ u))
                       (transpose (H_laser_ u))) (R_laser_ u)).
Proof.
  intros Hc HP r c Hr Hcc. unfold madd.
  rewrite !lidar_HPHt by assumption.
  rewrite (constructed_R_laser u Hc r c Hr Hcc), (HP r c) by lia. reflexivity.
Qed.

(** The covariance the lidar update stores, entry by entry:
    [P - (P Ht) Si (H P)] restricted to the two measured coordinates. *)
Lemma UpdateLidar_P (z : VectorXd) (u : UKF) (r c : nat) :
  constructed u -> (r < 5)%nat ->
  let S := madd (mmul (n_x_ u) (mmul (n_x_ u) (H_laser_ u) (P_ u))
                   (transpose (H_laser_ u))) (R_laser_ u) in
  let Si := inverse 2 S in
  P_ (UpdateLidar z u) r c =
  P_ u r c
  - (P_ u r 0%nat * Si 0%nat 0%nat + P_ u r 1%nat * Si 1%nat 0%nat) * P_ u 0%nat c
  - (P_ u r 0%nat * Si 0%nat 1%nat + P_ u r 1%nat * Si 1%nat 1%nat) * P_ u 1%nat c.
Proof.
  intros Hc Hr. cbv zeta. unfold UpdateLidar.
  cbn [P_ set_P_ set_x_ set_NIS_laser_ n_x_ H_laser_ R_laser_].
  set (Si := inverse 2 _).
  destruct (constructed_dims u Hc) as (Hn & _ & _).
  unfold mmul at 1. unfold msub. unfold mmul at 1. unfold mmul at 1.
  rewrite Hn at 1. cbv [sum_n].
  rewrite !lidar_PHt by (assumption || lia).
  rewrite !(constructed_H_laser u) by (assumption || lia).
  do 5 (destruct r as [| r]; [cbv [identity Nat.eqb]; ring |]). lia.
Qed.

Lemma UpdateLidar_symmetric (z : VectorXd) (u : UKF) :
  constructed u -> symmetric 5 (P_ u) -> symmetric 5 (P_ (UpdateLidar z u)).
Proof.
  intros Hc HP r c Hr Hcc.
  rewrite !UpdateLidar_P by assumption. cbv zeta.
  pose proof (inverse_2_symmetric _ (lidar_S_symmetric u Hc HP)) as HSi.
  set (Si := inverse 2 _) in *.
  rewrite (HSi 1%nat 0%nat) by lia.
  rewrite (HP c r), (HP 0%nat c), (HP 1%nat c), (HP 0%nat r), (HP 1%nat r) by lia.
  ring.
Qed.

Lemma outer_scaled_symmetric (w : R) (v : VectorXd) (r c : nat) :
  outer (vscale w v) v r c = outer (vscale w v) v c r.
Proof.
  unfold outer, vscale. ring.
Qed.

(** The innovation covariance of the radar update is symmetric: a sum of
    weighted outer products plus the diagonal [R_radar_]. *)
Lemma radar_S_symmetric (u : UKF) (Zsig : MatrixXd) (z_pred : VectorXd) :
  constructed u ->
  symmetric 3
    (madd
       (for_range 0 (2 * n_aug_ u + 1)
          (fun i S =>
             let z_diff := vsub (col Zsig i) z_pred in
             let z_diff := vset z_diff 1 (while_above_PI (z_diff 1%nat)) in
             let z_diff := vset z_diff 1 (while_below_minus_PI (z_diff 1%nat)) in
             madd S (outer (vscale (weights_ u i) z_diff) z_diff)) mzero)
       (R_radar_ u)).
Proof.
  intros Hc r c Hr Hcc. unfold madd at 1 3.
  rewrite (constructed_R_radar u Hc r c Hr Hcc). f_equal.
  apply (for_range_preserves (fun S : MatrixXd => S r c = S c r)).
  - intros i S HS. cbv zeta. unfold madd.
    rewrite HS, outer_scaled_symmetric. reflexivity.
  - reflexivity.
Qed.

Lemma sandwich_symmetric (K S : MatrixXd) :
  symmetric 3 S ->
  forall r c, mmul 3 (mmul 3 K S) (transpose K) r c
              = mmul 3 (mmul 3 K S) (transpose K) c r.
Proof.
  intros HS r c. unfold mmul, transpose. cbv [sum_n].
  rewrite (HS 1%nat 0%nat), (HS 2%nat 0%nat), (HS 2%nat 1%nat) by lia. ring.
Qed.

Lemma UpdateRadar_symmetric (z : VectorXd) (u : UKF) :
  constructed u -> symmetric 5 (P_ u) -> symmetric 5 (P_ (fst (UpdateRadar z u))).
Proof.
  intros Hc HP r c Hr Hcc. unfold UpdateRadar.
  cbn [fst P_ set_P_ set_x_ set_NIS_radar_ n_aug_ weights_ R_radar_ Xsig_pred_ x_].
  unfold msub. rewrite (HP r c Hr Hcc). f_equal.
  apply sandwich_symmetric, radar_S_symmetric, Hc.
Qed.

(** C6: for a symmetric covariance [P] and any measurement, the covariance
    stored by the lidar update, [(I - K*H)*P], and the one stored by the
    radar update, [P - K*S*Kt], are symmetric (over the reals). *)
Theorem update_keeps_P_symmetric (z : VectorXd) (u : UKF) :
  constructed u ->
  symmetric (n_x_ u) (P_ u) ->
  symmetric (n_x_ u) (P_ (UpdateLidar z u)) /\
  symmetric (n_x_ u) (P_ (fst (UpdateRadar z u))).
Proof.
  intros Hc. destruct (constructed_dims u Hc) as (Hn & _ & _). rewrite Hn.
  intros HP. split.
  - apply UpdateLidar_symmetric; assumption.
  - apply UpdateRadar_symmetric; assumption.
Qed.

Lemma identity_symmetric (n : nat) : symmetric n identity.
Proof.
  intros r c _ _. unfold identity. rewrite (Nat.eqb_sym r c). reflexivity.
Qed.

Lemma update_keeps_P_symmetric_witness :
  constructed estimate_3_4 /\
  symmetric (n_x_ estimate_3_4) (P_ estimate_3_4) /\
  symmetric (n_x_ estimate_3_4) (P_ (UpdateLidar (comma_init [3; 4]) estimate_3_4)).
Proof.
  split; [exact constructed_estimate_3_4 |].
  split; [apply identity_symmetric |].
  exact (proj1 (update_keeps_P_symmetric (comma_init [3; 4]) estimate_3_4
                  constructed_estimate_3_4 (identity_symmetric _))).
Defined.

(** The predicted covariance is symmetric whatever came before. *)
Lemma PredictMeanAndCovariance_symmetric (u : UKF) (n : nat) :
  symmetric n (P_ (PredictMeanAndCovariance u)).
Proof.
  intros r c _ _. unfold PredictMeanAndCovariance.
  apply (for_range_preserves (fun s : UKF => P_ s r c = P_ s c r)).
  - intros i s Hs. cbv zeta. cbn [P_ set_P_]. unfold madd.
    rewrite Hs, outer_scaled_symmetric. reflexivity.
  - reflexivity.
Qed.

(** The filter after a measurement processed in the initialized state. *)
Lemma fst_let_pair {A B C : Type} (p : A * B) (f : B -> C) :
  fst (let '(a, b) := p in (a, f b)) = fst p.
Proof.
  destruct p. reflexivity.
Qed.

Lemma ProcessMeasurement_initialized {lm : Libm} (m : MeasurementPackage) (u : UKF) :
  is_initialized_ u = true ->
  fst (ProcessMeasurement m u) =
  let u1 := Prediction (to_float (IZR (timestamp_ m - time_us_ u) / 1000000))
                       (set_time_us_ u (timestamp_ m)) in
  match sensor_type_ m with
  | RADAR => if use_radar_ u1 then fst (UpdateRadar (raw_measurements_ m) u1) else u1
  | LASER => if use_laser_ u1 then UpdateLidar (raw_measurements_ m) u1 else u1
  | OTHER => u1
  end.
Proof.
  intros Hu. unfold ProcessMeasurement. rewrite Hu.
  change (negb true) with false. cbv beta iota zeta.
  set (u1 := Prediction _ _).
  destruct (sensor_type_ m).
  - destruct (use_laser_ u1); reflexivity.
  - destruct (use_radar_ u1).
    + change (negb true) with false. cbv beta iota. apply fst_let_pair.
    + reflexivity.
  - reflexivity.
Qed.

(** The covariance of an initialized filter is symmetric after every
    processed measurement. *)
Lemma ProcessMeasurement_P_symmetric {lm : Libm} (m : MeasurementPackage) (u : UKF) :
  constructed u ->
  is_initialized_ (fst (ProcessMeasurement m u)) = true ->
  symmetric 5 (P_ (fst (ProcessMeasurement m u))).
Proof.
  intros Hc. destruct (is_initialized_ u) eqn:Hu.
  - intros _. rewrite (ProcessMeasurement_initialized m u Hu). cbv zeta.
    set (u1 := Prediction _ _).
    assert (Hc1 : constructed u1).
    { apply (constructed_parameters u); [| exact Hc].
      unfold u1. rewrite parameters_Prediction. reflexivity. }
    assert (HP1 : symmetric 5 (P_ u1)) by apply PredictMeanAndCovariance_symmetric.
    destruct (sensor_type_ m).
    + destruct (use_laser_ u1); [apply UpdateLidar_symmetric; assumption | exact HP1].
    + destruct (use_radar_ u1); [apply UpdateRadar_symmetric; assumption | exact HP1].
    + exact HP1.
  - destruct (bootstrap_position m) as [[px py] |] eqn:Hpos.
    + rewrite (ProcessMeasurement_first m u px py Hu Hpos). cbv zeta. cbn [fst].
      destruct (is_zero px && is_zero py).
      * cbn [is_initialized_ set_x_]. congruence.
      * intros _. apply identity_symmetric.
    + unfold ProcessMeasurement, bootstrap_position in *. rewrite Hu.
      destruct (sensor_type_ m); try discriminate.
      cbn [negb fst]. congruence.
Qed.

(** ** Prediction over a zero time step *)

(** The first loop of [PredictMeanAndCovariance] is the weighted sum of the
    predicted sigma points. *)
Lemma mean_loop (l : list nat) (u : UKF) (r : nat) :
  x_ (fold_left
        (fun acc i =>
           set_x_ acc (vadd (x_ acc) (vscale (weights_ acc i) (col (Xsig_pred_ acc) i))))
        l u) r
  = fold_left (fun a i => a + weights_ u i * Xsig_pred_ u r i) l (x_ u r).
Proof.
  revert u. induction l as [| i l IH]; intros u.
  - reflexivity.
  - cbn [fold_left]. rewrite IH. reflexivity.
Qed.

Lemma PredictMeanAndCovariance_mean (u : UKF) (r : nat) :
  x_ (PredictMeanAndCovariance u) r
  = sum_n (n_sig u) (fun i => weights_ u i * Xsig_pred_ u r i).
Proof.
  unfold PredictMeanAndCovariance.
  match goal with
  | |- x_ (for_range 0 ?n ?body (set_P_ ?s mzero)) r = _ =>
      assert (Hx : x_ (for_range 0 n body (set_P_ s mzero)) = x_ s)
        by (apply (for_range_preserves (fun t => x_ t = x_ s));
            [intros i t Ht; exact Ht | reflexivity]);
      rewrite Hx; clear Hx
  end.
  unfold for_range. cbn [n_aug_ set_x_]. rewrite Nat.sub_0_r, mean_loop.
  cbn [x_ weights_ Xsig_pred_ set_x_]. unfold vzero at 1.
  rewrite fold_left_sum, fold_left_seq_sum_n. unfold n_sig. ring.
Qed.

(** One pass of the body of [SigmaPointPrediction] writes column [i] only;
    over a zero time step it copies the state part of the augmented point. *)
Lemma SigmaPointPrediction_body_other (delta_t : R) (Xsig_aug : MatrixXd)
      (i : nat) (u : UKF) (r j : nat) :
  j <> i ->
  Xsig_pred_ (SigmaPointPrediction_body delta_t Xsig_aug i u) r j = Xsig_pred_ u r j.
Proof.
  intros Hj. apply Nat.eqb_neq in Hj.
  unfold SigmaPointPrediction_body. cbn [Xsig_pred_ set_Xsig_pred_].
  unfold mset. rewrite Hj, !andb_false_r. reflexivity.
Qed.

Lemma SigmaPointPrediction_body_at_0 (Xsig_aug : MatrixXd) (i : nat) (u : UKF) (r : nat) :
  (r < 5)%nat ->
  Xsig_pred_ (SigmaPointPrediction_body 0 Xsig_aug i u) r i = Xsig_aug r i.
Proof.
  intros Hr.
  unfold SigmaPointPrediction_body. cbn [Xsig_pred_ set_Xsig_pred_].
  unfold mset. rewrite Nat.eqb_refl.
  replace (Xsig_aug 3%nat i + Xsig_aug 4%nat i * 0) with (Xsig_aug 3%nat i) by ring.
  do 5 (destruct r as [| r];
        [cbn [Nat.eqb andb];
         try destruct (Rgt_dec (Rabs (Xsig_aug 4%nat i)) 0.001); ring |]).
  lia.
Qed.

Lemma SigmaPointPrediction_loop_at_0 (Xsig_aug : MatrixXd) (l : list nat)
      (u : UKF) (r j : nat) :
  (r < 5)%nat ->
  Xsig_pred_ (fold_left (fun acc i => SigmaPointPrediction_body 0 Xsig_aug i acc) l u) r j
  = if existsb (Nat.eqb j) l then Xsig_aug r j else Xsig_pred_ u r j.
Proof.
  intros Hr. revert u. induction l as [| i l IH]; intros u.
  - reflexivity.
  - cbn [fold_left existsb]. rewrite IH.
    destruct (existsb (Nat.eqb j) l).
    + rewrite orb_true_r. reflexivity.
    + rewrite orb_false_r. destruct (Nat.eqb j i) eqn:Hji.
      * apply Nat.eqb_eq in Hji. subst j.
        apply SigmaPointPrediction_body_at_0, Hr.
      * apply Nat.eqb_neq in Hji. apply SigmaPointPrediction_body_other, Hji.
Qed.

Lemma existsb_seq (j n : nat) : (j < n)%nat -> existsb (Nat.eqb j) (seq 0 n) = true.
Proof.
  intros Hj. apply existsb_exists. exists j. split.
  - apply in_seq. lia.
  - apply Nat.eqb_refl.
Qed.

Lemma SigmaPointPrediction_at_0 (Xsig_aug : MatrixXd) (u : UKF) (r j : nat) :
  (r < 5)%nat -> (j < n_sig u)%nat ->
  Xsig_pred_ (SigmaPointPrediction 0 Xsig_aug u) r j = Xsig_aug r j.
Proof.
  intros Hr Hj. unfold SigmaPointPrediction, for_range.
  rewrite SigmaPointPrediction_loop_at_0 by exact Hr.
  rewrite Nat.sub_0_r, existsb_seq by exact Hj. reflexivity.
Qed.

(** The augmented sigma points: the mean in column 0, then the mean plus and
    minus the scaled columns of the Cholesky factor. *)
Lemma GenerateAugmentedSigmaPoints_columns (u : UKF) (r : nat) :
  constructed u -> (r < 5)%nat ->
  exists d : nat -> R,
    let X := GenerateAugmentedSigmaPoints u mzero in
    X r 0%nat = x_ u r /\
    forall i, (i < 7)%nat ->
      X r (i + 1)%nat = x_ u r + d i /\ X r (i + 1 + 7)%nat = x_ u r - d i.
Proof.
  intros Hc Hr. destruct (constructed_dims u Hc) as (Hn & Ha & _).
  unfold GenerateAugmentedSigmaPoints. rewrite Hn, Ha.
  set (L := llt_matrixL _ _).
  exists (fun i => sqrt (lambda_ u + INR 7) * L r i).
  cbv zeta.
  do 5 (destruct r as [| r];
        [split;
         [reflexivity
         | intros i Hi;
           do 7 (destruct i as [| i]; [split; reflexivity |]); lia] |]).
  lia.
Qed.

Lemma SigmaPointPrediction_keeps (delta_t : R) (Xsig_aug : MatrixXd) (u : UKF) :
  weights_ (SigmaPointPrediction delta_t Xsig_aug u) = weights_ u /\
  n_sig (SigmaPointPrediction delta_t Xsig_aug u) = n_sig u.
Proof.
  destruct (other_fields_SigmaPointPrediction delta_t Xsig_aug u) as (H & _ & _).
  unfold other_fields, parameters in H. unfold n_sig.
  split; [congruence |].
  assert (E : n_aug_ (SigmaPointPrediction delta_t Xsig_aug u) = n_aug_ u) by congruence.
  rewrite E. reflexivity.
Qed.

(** The weighted recombination of the sigma points propagated over a zero
    time step is the mean they were drawn around. *)
Lemma Prediction_at_0_mean (u : UKF) (r : nat) :
  constructed u ->
  (r < n_x_ u)%nat ->
  x_ (Prediction 0 u) r = x_ u r.
Proof.
  intros Hc. destruct (constructed_dims u Hc) as (Hn & Ha & _).
  rewrite Hn. intros Hr.
  unfold Prediction. rewrite PredictMeanAndCovariance_mean.
  destruct (SigmaPointPrediction_keeps 0 (GenerateAugmentedSigmaPoints u mzero) u)
    as [Hw Hs].
  rewrite Hs, Hw.
  assert (H15 : n_sig u = 15%nat) by (unfold n_sig; rewrite Ha; reflexivity).
  rewrite H15. cbv [sum_n].
  rewrite !SigmaPointPrediction_at_0 by (rewrite ?H15; lia).
  rewrite !(constructed_weights u) by (assumption || lia).
  cbv [Nat.eqb].
  destruct (GenerateAugmentedSigmaPoints_columns u r Hc Hr) as (d & H0 & Hd).
  cbv zeta in H0, Hd.
  destruct (Hd 0%nat ltac:(lia)) as [Hp0 Hm0].
  destruct (Hd 1%nat ltac:(lia)) as [Hp1 Hm1].
  destruct (Hd 2%nat ltac:(lia)) as [Hp2 Hm2].
  destruct (Hd 3%nat ltac:(lia)) as [Hp3 Hm3].
  destruct (Hd 4%nat ltac:(lia)) as [Hp4 Hm4].
  destruct (Hd 5%nat ltac:(lia)) as [Hp5 Hm5].
  destruct (Hd 6%nat ltac:(lia)) as [Hp6 Hm6].
  cbn [Nat.add] in *.
  rewrite H0, Hp0, Hm0, Hp1, Hm1, Hp2, Hm2, Hp3, Hm3, Hp4, Hm4, Hp5, Hm5, Hp6, Hm6.
  field.
Qed.

(** C4: for a constructed filter, whatever its state [(x, P)], the
    prediction over [dt = 0] returns the state mean it started from: the
    weighted recombination of the propagated sigma points is [x] itself.
    Nothing is claimed of [P], which the step rebuilds from the sigma
    points. *)
Theorem Prediction_zero_dt_keeps_mean (u : UKF) :
  constructed u ->
  forall r, (r < n_x_ u)%nat -> x_ (Prediction 0 u) r = x_ u r.
Proof.
  intros Hc r Hr. apply Prediction_at_0_mean; assumption.
Qed.

Lemma Prediction_zero_dt_keeps_mean_witness :
  constructed fresh /\ (0 < n_x_ fresh)%nat /\
  x_ (Prediction 0 fresh) 0%nat = x_ fresh 0%nat.
Proof.
  assert (Hc : constructed fresh) by apply constructed_UKF_UKF.
  assert (Hr : (0 < n_x_ fresh)%nat) by (cbv; lia).
  split; [exact Hc |]. split; [exact Hr |].
  exact (Prediction_zero_dt_keeps_mean fresh Hc 0%nat Hr).
Defined.

(** The same through [ProcessMeasurement]: a measurement that carries the
    stored timestamp and triggers no update leaves the mean where it was. *)
Lemma ProcessMeasurement_same_time_keeps_mean {lm : Libm} (m : MeasurementPackage) (u : UKF) (r : nat) :
  constructed u ->
  is_initialized_ u = true ->
  timestamp_ m = time_us_ u ->
  sensor_type_ m = OTHER ->
  (r < n_x_ u)%nat ->
  x_ (fst (ProcessMeasurement m u)) r = x_ u r.
Proof.
  intros Hc Hu Ht Hm Hr.
  rewrite (ProcessMeasurement_initialized m u Hu), Hm. cbv zeta.
  rewrite Ht, Z.sub_diag.
  replace (IZR 0 / 1000000) with 0 by (simpl; field).
  rewrite to_float_0.
  rewrite <- Ht.
  apply (Prediction_at_0_mean (set_time_us_ u (timestamp_ m)) r).
  - apply (constructed_parameters u); [reflexivity | exact Hc].
  - exact Hr.
Qed.

(** ** The modelled Cholesky factor *)

(** For a symmetric positive definite 2 x 2 matrix the modelled factor
    satisfies [L * Lt = A]. *)
Lemma llt_matrixL_2_correct (A : MatrixXd) (r c : nat) :
  symmetric 2 A ->
  0 < A 0%nat 0%nat ->
  0 < A 0%nat 0%nat * A 1%nat 1%nat - A 1%nat 0%nat * A 1%nat 0%nat ->
  (r < 2)%nat -> (c < 2)%nat ->
  mmul 2 (llt_matrixL 2 A) (transpose (llt_matrixL 2 A)) r c = A r c.
Proof.
  intros Hsym H0 Hdet Hr Hc.
  assert (Hs0 : sqrt (A 0%nat 0%nat) * sqrt (A 0%nat 0%nat) = A 0%nat 0%nat)
    by (apply sqrt_sqrt; lra).
  assert (Hn0 : sqrt (A 0%nat 0%nat) <> 0).
  { intros E. rewrite E in Hs0. lra. }
  set (s := sqrt (A 0%nat 0%nat)) in *.
  assert (Hq : 0 <= A 1%nat 1%nat - A 1%nat 0%nat / s * (A 1%nat 0%nat / s)).
  { replace (A 1%nat 0%nat / s * (A 1%nat 0%nat / s))
      with (A 1%nat 0%nat * A 1%nat 0%nat / A 0%nat 0%nat)
      by (rewrite <- Hs0; field; exact Hn0).
    apply Rmult_le_reg_l with (r := A 0%nat 0%nat); [exact H0 |].
    replace (A 0%nat 0%nat * (A 1%nat 1%nat - A 1%nat 0%nat * A 1%nat 0%nat / A 0%nat 0%nat))
      with (A 0%nat 0%nat * A 1%nat 1%nat - A 1%nat 0%nat * A 1%nat 0%nat)
      by (field; lra).
    lra. }
  pose proof (sqrt_sqrt _ Hq) as Hs1.
  unfold mmul, transpose, llt_matrixL, llt_column.
  cbv [for_range fold_left seq Nat.sub sum_n Nat.eqb Nat.ltb Nat.leb mzero].
  replace (A 0%nat 0%nat - 0) with (A 0%nat 0%nat) by ring.
  replace (A 1%nat 0%nat - 0) with (A 1%nat 0%nat) by ring.
  fold s.
  replace (0 + A 1%nat 0%nat / s * (A 1%nat 0%nat / s))
    with (A 1%nat 0%nat / s * (A 1%nat 0%nat / s)) by ring.
  set (t := sqrt (A 1%nat 1%nat - A 1%nat 0%nat / s * (A 1%nat 0%nat / s))) in *.
  destruct r as [| [| r]], c as [| [| c]]; try lia.
  - rewrite <- Hs0. ring.
  - rewrite (Hsym 0%nat 1%nat) by lia. field. exact Hn0.
  - field. exact Hn0.
  - transitivity (A 1%nat 0%nat / s * (A 1%nat 0%nat / s) + t * t);
      [field; exact Hn0 |].
    rewrite Hs1. ring.
Qed.

(** * Further properties of the filter *)

(** ** What [ProcessMeasurement] keeps *)

Lemma snd_let_pair {A B C : Type} (p : A * B) (f : B -> C) :
  snd (let '(a, b) := p in (a, f b)) = f (snd p).
Proof.
  destruct p. reflexivity.
Qed.

(** The measurement after [ProcessMeasurement] in the initialized state. *)
Lemma ProcessMeasurement_initialized_package {lm : Libm} (m : MeasurementPackage) (u : UKF) :
  is_initialized_ u = true ->
  snd (ProcessMeasurement m u) =
  let u1 := Prediction (to_float (IZR (timestamp_ m - time_us_ u) / 1000000))
                       (set_time_us_ u (timestamp_ m)) in
  match sensor_type_ m with
  | RADAR =>
      if use_radar_ u1
      then set_raw_measurements_ m (snd (UpdateRadar (raw_measurements_ m) u1))
      else m
  | _ => m
  end.
Proof.
  intros Hu. unfold ProcessMeasurement. rewrite Hu.
  change (negb true) with false. cbv beta iota zeta.
  set (u1 := Prediction _ _).
  destruct (sensor_type_ m).
  - destruct (use_laser_ u1); reflexivity.
  - destruct (use_radar_ u1).
    + change (negb true) with false. cbv beta iota.
      apply (snd_let_pair (UpdateRadar (raw_measurements_ m) u1)
                          (set_raw_measurements_ m)).
    + reflexivity.
  - reflexivity.
Qed.

Lemma ProcessMeasurement_uninitialized_package {lm : Libm} (m : MeasurementPackage) (u : UKF) :
  is_initialized_ u = false -> snd (ProcessMeasurement m u) = m.
Proof.
  intros Hu. destruct (bootstrap_position m) as [[px py] |] eqn:Hpos.
  - rewrite (ProcessMeasurement_first m u px py Hu Hpos). reflexivity.
  - unfold ProcessMeasurement, bootstrap_position in *. rewrite Hu.
    destruct (sensor_type_ m); try discriminate. reflexivity.
Qed.

Lemma UpdateRadar_argument (z : VectorXd) (u : UKF) :
  snd (UpdateRadar z u) 1%nat = normalize_angle (z 1%nat) /\
  forall i, i <> 1%nat -> snd (UpdateRadar z u) i = z i.
Proof.
  unfold UpdateRadar. cbn [snd]. exact (normalized_entry z 1).
Qed.

Lemma use_flags_Prediction (delta_t : R) (u : UKF) :
  use_laser_ (Prediction delta_t u) = use_laser_ u /\
  use_radar_ (Prediction delta_t u) = use_radar_ u.
Proof.
  pose proof (parameters_Prediction delta_t u) as H.
  unfold parameters in H. split; congruence.
Qed.

(** X1: no call of [ProcessMeasurement] writes a parameter (sensor toggles,
    noise values, dimensions, [lambda_], weights, [H_laser_], [R_laser_],
    [R_radar_]); a filter with the constructor's parameters keeps them. *)
Theorem ProcessMeasurement_never_writes_parameters {lm : Libm} (m : MeasurementPackage) (u : UKF) :
  parameters (fst (ProcessMeasurement m u)) = parameters u /\
  (constructed u -> constructed (fst (ProcessMeasurement m u))).
Proof.
  split.
  - apply parameters_ProcessMeasurement.
  - apply constructed_ProcessMeasurement.
Qed.

Lemma ProcessMeasurement_never_writes_parameters_witness :
  constructed fresh /\
  constructed (fst (ProcessMeasurement (lm := libm32) (radar_pkg 5 1 0 0) fresh)).
Proof.
  split; [apply constructed_UKF_UKF |].
  exact (proj2 (ProcessMeasurement_never_writes_parameters (lm := libm32) (radar_pkg 5 1 0 0) fresh)
               (constructed_UKF_UKF blank)).
Defined.

(** X2: an initialized filter stays initialized, and after every
    measurement, whatever its kind and whatever the sensor toggles, the
    stored time is that measurement's timestamp. *)
Theorem initialized_filter_follows_time {lm : Libm} (m : MeasurementPackage) (u : UKF) :
  is_initialized_ u = true ->
  is_initialized_ (fst (ProcessMeasurement m u)) = true /\
  time_us_ (fst (ProcessMeasurement m u)) = timestamp_ m.
Proof.
  intros Hu. rewrite (ProcessMeasurement_initialized m u Hu). cbv zeta.
  set (dt := to_float (IZR (timestamp_ m - time_us_ u) / 1000000)).
  pose proof (is_initialized_Prediction dt (set_time_us_ u (timestamp_ m))) as Hi.
  pose proof (time_us_Prediction dt (set_time_us_ u (timestamp_ m))) as Ht.
  cbn [is_initialized_ time_us_ set_time_us_] in Hi, Ht. rewrite Hu in Hi.
  set (u1 := Prediction dt _) in *.
  destruct (sensor_type_ m).
  - destruct (use_laser_ u1); split; assumption.
  - destruct (use_radar_ u1); split; assumption.
  - split; assumption.
Qed.

Lemma initialized_filter_follows_time_witness :
  is_initialized_ tracking = true /\
  time_us_ (fst (ProcessMeasurement (lm := libm32) (radar_pkg 5 1 0 0) tracking)) = 5%Z.
Proof.
  split; [exact (proj1 tracking_initialized) |].
  exact (proj2 (initialized_filter_follows_time (lm := libm32) (radar_pkg 5 1 0 0) tracking
                  (proj1 tracking_initialized))).
Defined.

(** X3: whenever a constructed filter is initialized after a measurement,
    its covariance is symmetric, whatever [P] held before: the bootstrap
    stores the identity, the prediction rebuilds [P] from outer products and
    both updates keep symmetry. *)
Theorem covariance_symmetric_after_measurement {lm : Libm} (m : MeasurementPackage) (u : UKF) :
  constructed u ->
  is_initialized_ (fst (ProcessMeasurement m u)) = true ->
  symmetric (n_x_ u) (P_ (fst (ProcessMeasurement m u))).
Proof.
  intros Hc Hi. destruct (constructed_dims u Hc) as (Hn & _ & _). rewrite Hn.
  apply ProcessMeasurement_P_symmetric; assumption.
Qed.

Lemma covariance_symmetric_after_measurement_witness :
  constructed fresh /\
  is_initialized_ (fst (ProcessMeasurement (lm := libm32) (lidar_pkg 0 3 4) fresh)) = true /\
  symmetric (n_x_ fresh) (P_ (fst (ProcessMeasurement (lm := libm32) (lidar_pkg 0 3 4) fresh))).
Proof.
  split; [apply constructed_UKF_UKF |].
  split; [exact (proj1 tracking_initialized) |].
  exact (covariance_symmetric_after_measurement (lm := libm32) (lidar_pkg 0 3 4) fresh
           (constructed_UKF_UKF blank) (proj1 tracking_initialized)).
Defined.

(** X4: the first measurement initializes the filter exactly when its kind
    is known and the position the code stores, computed in [float], is not
    [(0,0)].  So a radar reading whose range underflows single precision
    ([|rho| < 2^-150]) is rejected as [rho = 0] is, and so is a lidar
    reading whose two coordinates underflow. *)
Theorem bootstrap_accepts_iff {lm : Libm} (m : MeasurementPackage) (u : UKF) :
  is_initialized_ u = false ->
  finite_reading m ->
  (is_initialized_ (fst (ProcessMeasurement m u)) = true <->
   exists px py, bootstrap_position m = Some (px, py) /\ (px <> 0 \/ py <> 0)) /\
  (sensor_type_ m = RADAR ->
   Rabs (raw_measurements_ m 0%nat) < powerRZ 2 (-150) ->
   is_initialized_ (fst (ProcessMeasurement m u)) = false) /\
  (sensor_type_ m = LASER ->
   Rabs (raw_measurements_ m 0%nat) < powerRZ 2 (-150) ->
   Rabs (raw_measurements_ m 1%nat) < powerRZ 2 (-150) ->
   is_initialized_ (fst (ProcessMeasurement m u)) = false).
Proof.
  intros Hu _.
  assert (Hrej : bootstrap_position m = Some (0, 0) ->
                 is_initialized_ (fst (ProcessMeasurement m u)) = false).
  { intros Hpos. rewrite (bootstrap_rejected m u Hu Hpos). exact Hu. }
  split; [| split].
  - split.
    + intros Hi. destruct (bootstrap_position m) as [[px py] |] eqn:Hpos.
      * exists px, py. split; [reflexivity |].
        rewrite (ProcessMeasurement_first m u px py Hu Hpos) in Hi.
        cbv zeta in Hi. cbn [fst] in Hi.
        destruct (is_zero px && is_zero py) eqn:Hz.
        -- cbn [is_initialized_ set_x_] in Hi. congruence.
        -- apply andb_false_iff in Hz.
           destruct Hz as [Hz | Hz]; [left | right]; apply is_zero_false, Hz.
      * unfold ProcessMeasurement, bootstrap_position in *. rewrite Hu in Hi.
        destruct (sensor_type_ m); try discriminate.
        cbn [negb fst] in Hi. congruence.
    + intros (px & py & Hpos & Hnz).
      destruct (bootstrap_accepted m u px py Hu Hpos Hnz) as [[_ _ _ Hi _ _ _] _].
      exact Hi.
  - intros Hm Hrho. apply Hrej.
    rewrite bootstrap_position_radar by exact Hm.
    rewrite (to_float_underflow _ Hrho), !fmul_0_l. reflexivity.
  - intros Hm H0 H1. apply Hrej.
    unfold bootstrap_position. rewrite Hm.
    rewrite (to_float_underflow _ H0), (to_float_underflow _ H1). reflexivity.
Qed.

Lemma bootstrap_accepts_iff_witness :
  is_initialized_ fresh = false /\
  finite_reading (lm := libm32) (radar_pkg 0 0 1 2) /\
  sensor_type_ (radar_pkg 0 0 1 2) = RADAR /\
  Rabs (raw_measurements_ (radar_pkg 0 0 1 2) 0%nat) < powerRZ 2 (-150) /\
  is_initialized_ (fst (ProcessMeasurement (lm := libm32) (radar_pkg 0 0 1 2) fresh)) = false.
Proof.
  assert (Hf : finite_reading (lm := libm32) (radar_pkg 0 0 1 2))
    by exact (finite_reading_zero_range 0 1 2 finite_1).
  assert (Hr : Rabs (raw_measurements_ (radar_pkg 0 0 1 2) 0%nat) < powerRZ 2 (-150)).
  { cbn [raw_measurements_ radar_pkg comma_init nth]. rewrite Rabs_R0.
    apply powerRZ_2_pos. }
  split; [reflexivity |]. split; [exact Hf |]. split; [reflexivity |].
  split; [exact Hr |].
  exact (proj1 (proj2 (bootstrap_accepts_iff (lm := libm32) (radar_pkg 0 0 1 2) fresh
                         eq_refl Hf)) eq_refl Hr).
Defined.

(** X5: for an initialized filter, a measurement of a disabled sensor runs
    the prediction to its timestamp and nothing else: the filter is exactly
    the predicted one and the measurement is returned untouched. *)
Theorem disabled_sensor_predicts_only {lm : Libm} (m : MeasurementPackage) (u : UKF) :
  is_initialized_ u = true ->
  (sensor_type_ m = LASER /\ use_laser_ u = false) \/
  (sensor_type_ m = RADAR /\ use_radar_ u = false) ->
  ProcessMeasurement m u =
  (Prediction (to_float (IZR (timestamp_ m - time_us_ u) / 1000000))
              (set_time_us_ u (timestamp_ m)), m).
Proof.
  intros Hu Hoff.
  rewrite (surjective_pairing (ProcessMeasurement m u)).
  rewrite (ProcessMeasurement_initialized m u Hu),
          (ProcessMeasurement_initialized_package m u Hu). cbv zeta.
  destruct (use_flags_Prediction (to_float (IZR (timestamp_ m - time_us_ u) / 1000000))
              (set_time_us_ u (timestamp_ m))) as [Hl Hr].
  cbn [use_laser_ use_radar_ set_time_us_] in Hl, Hr.
  destruct Hoff as [[Hm Hf] | [Hm Hf]]; rewrite Hm.
  - rewrite Hl, Hf. reflexivity.
  - rewrite Hr, Hf. reflexivity.
Qed.

Lemma disabled_sensor_predicts_only_witness :
  is_initialized_ (set_time_us_ (set_is_initialized_ blank true) 0) = true /\
  (sensor_type_ (lidar_pkg 1 3 4) = LASER /\
   use_laser_ (set_time_us_ (set_is_initialized_ blank true) 0) = false) /\
  snd (ProcessMeasurement (lm := libm32) (lidar_pkg 1 3 4)
         (set_time_us_ (set_is_initialized_ blank true) 0)) = lidar_pkg 1 3 4.
Proof.
  split; [reflexivity |]. split; [split; reflexivity |].
  exact (f_equal snd
           (disabled_sensor_predicts_only (lm := libm32) (lidar_pkg 1 3 4)
              (set_time_us_ (set_is_initialized_ blank true) 0)
              eq_refl (or_introl (conj eq_refl eq_refl)))).
Defined.

(** X6: [ProcessMeasurement] never changes the timestamp or the kind of the
    measurement it is given, nor any raw value other than entry 1.  The
    measurement comes back unchanged unless it is a radar reading given to
    an initialized filter whose radar is enabled; then entry 1, the bearing,
    comes back normalized. *)
Theorem ProcessMeasurement_package {lm : Libm} (m : MeasurementPackage) (u : UKF) :
  let m' := snd (ProcessMeasurement m u) in
  timestamp_ m' = timestamp_ m /\
  sensor_type_ m' = sensor_type_ m /\
  (forall i, i <> 1%nat -> raw_measurements_ m' i = raw_measurements_ m i) /\
  (sensor_type_ m <> RADAR \/ is_initialized_ u = false \/ use_radar_ u = false ->
   m' = m) /\
  (sensor_type_ m = RADAR -> is_initialized_ u = true -> use_radar_ u = true ->
   raw_measurements_ m' 1%nat = normalize_angle (raw_measurements_ m 1%nat)).
Proof.
  cbv zeta. destruct (is_initialized_ u) eqn:Hu.
  - rewrite (ProcessMeasurement_initialized_package m u Hu). cbv zeta.
    destruct (use_flags_Prediction (to_float (IZR (timestamp_ m - time_us_ u) / 1000000))
                (set_time_us_ u (timestamp_ m))) as [_ Hr].
    cbn [use_radar_ set_time_us_] in Hr. rewrite Hr.
    set (u1 := Prediction _ _).
    destruct (UpdateRadar_argument (raw_measurements_ m) u1) as [H1 Hrest].
    destruct (sensor_type_ m) eqn:Hm; [| destruct (use_radar_ u) eqn:Hf |].
    + repeat split; intros; first [reflexivity | discriminate | congruence].
    + cbn [timestamp_ sensor_type_ raw_measurements_ set_raw_measurements_].
      split; [reflexivity |]. split; [exact Hm |]. split; [exact Hrest |]. split.
      * intros [H | [H | H]]; [contradiction | discriminate | discriminate].
      * intros _ _ _. exact H1.
    + repeat split; intros; first [reflexivity | discriminate | congruence].
    + repeat split; intros; first [reflexivity | discriminate | congruence].
  - rewrite (ProcessMeasurement_uninitialized_package m u Hu).
    repeat split; intros; first [reflexivity | discriminate | congruence].
Qed.

Lemma ProcessMeasurement_package_witness :
  sensor_type_ (lidar_pkg 1 3 4) <> RADAR /\
  snd (ProcessMeasurement (lm := libm32) (lidar_pkg 1 3 4) tracking) = lidar_pkg 1 3 4.
Proof.
  assert (H : sensor_type_ (lidar_pkg 1 3 4) <> RADAR) by discriminate.
  split; [exact H |].
  exact (proj1 (proj2 (proj2 (proj2 (ProcessMeasurement_package (lm := libm32) (lidar_pkg 1 3 4) tracking))))
           (or_introl H)).
Defined.

(** X7: each NIS value is written by its own sensor's update only: a
    measurement that is not a radar reading leaves [NIS_radar_] as it was,
    and one that is not a lidar reading leaves [NIS_laser_] as it was. *)
Theorem NIS_written_by_own_sensor {lm : Libm} (m : MeasurementPackage) (u : UKF) :
  (sensor_type_ m <> RADAR ->
   NIS_radar_ (fst (ProcessMeasurement m u)) = NIS_radar_ u) /\
  (sensor_type_ m <> LASER ->
   NIS_laser_ (fst (ProcessMeasurement m u)) = NIS_laser_ u).
Proof.
  destruct (is_initialized_ u) eqn:Hu.
  - rewrite (ProcessMeasurement_initialized m u Hu). cbv zeta.
    destruct (NIS_Prediction (to_float (IZR (timestamp_ m - time_us_ u) / 1000000))
                (set_time_us_ u (timestamp_ m))) as [Hl Hr].
    cbn [NIS_laser_ NIS_radar_ set_time_us_] in Hl, Hr.
    set (u1 := Prediction _ _) in *.
    destruct (sensor_type_ m); split; intros Hk; try contradiction.
    + destruct (use_laser_ u1); exact Hr.
    + destruct (use_radar_ u1); exact Hl.
    + exact Hr.
    + exact Hl.
  - destruct (bootstrap_position m) as [[px py] |] eqn:Hpos.
    + rewrite (ProcessMeasurement_first m u px py Hu Hpos). cbv zeta. cbn [fst].
      destruct (is_zero px && is_zero py); split; reflexivity.
    + unfold ProcessMeasurement, bootstrap_position in *. rewrite Hu.
      destruct (sensor_type_ m); try discriminate. split; reflexivity.
Qed.

Lemma NIS_written_by_own_sensor_witness :
  sensor_type_ (lidar_pkg 1 3 4) <> RADAR /\
  NIS_radar_ (fst (ProcessMeasurement (lm := libm32) (lidar_pkg 1 3 4) tracking)) = NIS_radar_ tracking.
Proof.
  assert (H : sensor_type_ (lidar_pkg 1 3 4) <> RADAR) by discriminate.
  split; [exact H |].
  exact (proj1 (NIS_written_by_own_sensor (lm := libm32) (lidar_pkg 1 3 4) tracking) H).
Defined.

(** ** Angles *)

(** X8: the normalization returns the representative of its argument: if
    some whole number of turns takes [a] strictly inside [(- PI, PI)], the
    result is [a] moved by exactly that number of turns.  Normalizing twice
    is normalizing once. *)
Theorem normalize_angle_representative (a : R) :
  (forall k : Z, - PI < a + 2 * IZR k * PI < PI ->
                 normalize_angle a = a + 2 * IZR k * PI) /\
  normalize_angle (normalize_angle a) = normalize_angle a.
Proof.
  split.
  - intros k [Hlo Hhi].
    destruct (normalize_angle_turns a) as [j Hj].
    pose proof (normalize_angle_bounds a) as [Blo Bhi].
    pose proof PI_RGT_0 as Hpi.
    rewrite Hj in Blo, Bhi |- *.
    assert (Hjk : (j = k)%Z).
    { assert (H1 : IZR (j - k) < 1).
      { rewrite minus_IZR. apply Rmult_lt_reg_r with (r := 2 * PI); [lra |]. lra. }
      assert (H2 : -1 < IZR (j - k)).
      { rewrite minus_IZR. apply Rmult_lt_reg_r with (r := 2 * PI); [lra |]. lra. }
      apply lt_IZR in H1. apply lt_IZR in H2. lia. }
    rewrite Hjk. reflexivity.
  - apply normalize_angle_fixed, normalize_angle_bounds.
Qed.

Lemma normalize_angle_representative_witness :
  - PI < 7 + 2 * IZR (-1) * PI < PI /\
  normalize_angle 7 = 7 + 2 * IZR (-1) * PI.
Proof.
  assert (H : - PI < 7 + 2 * IZR (-1) * PI < PI).
  { pose proof PI2_3_2. pose proof PI_4. simpl. lra. }
  split; [exact H |].
  exact (proj1 (normalize_angle_representative 7) (-1)%Z H).
Defined.

(** ** The radar measurement model *)

Lemma atan2_range (y x : R) : - PI < atan2 y x <= PI.
Proof.
  pose proof PI_RGT_0 as Hpi. unfold atan2.
  destruct (Rlt_dec 0 x) as [Hx | Hx].
  - pose proof (atan_bound (y / x)). lra.
  - destruct (Rlt_dec x 0) as [Hx' | Hx'].
    + pose proof (atan_bound (y / x)) as Hb.
      destruct (Rlt_dec y 0) as [Hy | Hy].
      * assert (Hq : 0 < y / x).
        { unfold Rdiv. replace (y * / x) with ((- y) * / (- x)) by (field; lra).
          apply Rmult_lt_0_compat; [lra | apply Rinv_0_lt_compat; lra]. }
        pose proof (atan_increasing 0 (y / x) Hq) as Hi. rewrite atan_0 in Hi. lra.
      * assert (Hq : y / x <= 0).
        { unfold Rdiv. replace (y * / x) with (- (y * / (- x))) by (field; lra).
          assert (0 <= y * / (- x)); [| lra].
          apply Rmult_le_pos; [lra | left; apply Rinv_0_lt_compat; lra]. }
        assert (Ha : atan (y / x) <= 0).
        { destruct Hq as [Hq | Hq].
          - pose proof (atan_increasing (y / x) 0 Hq) as Hi. rewrite atan_0 in Hi. lra.
          - rewrite Hq, atan_0. lra. }
        lra.
    + destruct (Rlt_dec 0 y); [lra |]. destruct (Rlt_dec y 0); lra.
Qed.

Lemma projection_bound (p_x p_y c s : R) :
  s * s + c * c = 1 ->
  Rabs (p_x * c + p_y * s) <= sqrt (p_x * p_x + p_y * p_y).
Proof.
  intros Hcs.
  assert (Hnn : 0 <= p_x * p_x + p_y * p_y) by nra.
  rewrite <- (sqrt_Rsqr (Rabs (p_x * c + p_y * s))) by apply Rabs_pos.
  apply sqrt_le_1_alt. rewrite <- Rsqr_abs. unfold Rsqr.
  pose proof (Rle_0_sqr (p_x * s - p_y * c)) as Hsq. unfold Rsqr in Hsq.
  assert (E : (p_x * p_x + p_y * p_y) * (s * s + c * c)
              - (p_x * c + p_y * s) * (p_x * c + p_y * s)
              = (p_x * s - p_y * c) * (p_x * s - p_y * c)) by ring.
  rewrite Hcs in E. lra.
Qed.

(** X13: the image of a sigma point under the radar model has a
    non-negative range, a bearing in [(- PI, PI]], and a range rate that
    never exceeds the speed in magnitude, on either side of the range
    guard. *)
Theorem UpdateRadar_model_bounds (Xsig_pred : MatrixXd) (i : nat) (Zsig : MatrixXd) :
  let Z := UpdateRadar_model Xsig_pred i Zsig in
  0 <= Z 0%nat i /\
  - PI < Z 1%nat i <= PI /\
  Rabs (Z 2%nat i) <= Rabs (Xsig_pred 2%nat i).
Proof.
  cbv zeta. unfold UpdateRadar_model, mset. cbn [Nat.eqb andb].
  rewrite Nat.eqb_refl.
  set (p_x := Xsig_pred 0%nat i). set (p_y := Xsig_pred 1%nat i).
  set (v := Xsig_pred 2%nat i). set (yaw := Xsig_pred 3%nat i).
  set (c1 := sqrt (p_x * p_x + p_y * p_y)).
  split; [apply sqrt_pos |]. split; [apply atan2_range |].
  destruct (Rgt_dec (Rabs c1) 0.0001) as [Hgt | Hle].
  - assert (Habs : Rabs c1 = c1) by (apply Rabs_pos_eq, sqrt_pos).
    rewrite Habs in Hgt.
    assert (Hpos : 0 < c1) by lra.
    replace ((p_x * (cos yaw * v) + p_y * (sin yaw * v)) / c1)
      with (v * ((p_x * cos yaw + p_y * sin yaw) / c1)) by (field; lra).
    rewrite Rabs_mult.
    rewrite <- (Rmult_1_r (Rabs v)) at 2.
    apply Rmult_le_compat_l; [apply Rabs_pos |].
    unfold Rdiv. rewrite Rabs_mult, (Rabs_pos_eq (/ c1))
      by (left; apply Rinv_0_lt_compat, Hpos).
    apply Rmult_le_reg_r with (r := c1); [exact Hpos |].
    rewrite Rmult_assoc, Rinv_l, Rmult_1_r, Rmult_1_l by lra.
    apply projection_bound. pose proof (sin2_cos2 yaw) as H. unfold Rsqr in H. exact H.
  - rewrite Rabs_R0. apply Rabs_pos.
Qed.

(** ** The innovation statistic and the lidar update *)

(** The quadratic form of the inverse of a symmetric positive definite
    2 x 2 matrix is non-negative. *)
Lemma inverse_2_quadratic_form (S : MatrixXd) (d : VectorXd) :
  symmetric 2 S -> 0 < S 0%nat 0%nat -> 0 < det 2 S ->
  0 <= dot 2 (vmmul 2 d (inverse 2 S)) d.
Proof.
  intros Hsym H00 Hdet.
  assert (Hd : det 2 S = S 0%nat 0%nat * S 1%nat 1%nat - S 0%nat 1%nat * S 0%nat 1%nat).
  { cbv [det minor sum_n Nat.ltb Nat.leb]. rewrite (Hsym 1%nat 0%nat) by lia.
    simpl. ring. }
  assert (E : dot 2 (vmmul 2 d (inverse 2 S)) d
              = (S 1%nat 1%nat * (d 0%nat * d 0%nat)
                 - 2 * S 0%nat 1%nat * (d 0%nat * d 1%nat)
                 + S 0%nat 0%nat * (d 1%nat * d 1%nat)) / det 2 S).
  { unfold dot, vmmul, inverse. cbv [sum_n Nat.sub Nat.add].
    cbv [det minor sum_n Nat.ltb Nat.leb] in *.
    rewrite (Hsym 1%nat 0%nat) in * by lia. simpl. simpl in Hdet. field. lra. }
  rewrite E. apply Rmult_le_pos; [| left; apply Rinv_0_lt_compat, Hdet].
  rewrite Hd in Hdet.
  apply Rmult_le_reg_l with (r := S 0%nat 0%nat); [exact H00 |].
  rewrite Rmult_0_r.
  pose proof (Rle_0_sqr (S 0%nat 0%nat * d 1%nat - S 0%nat 1%nat * d 0%nat)) as Hsq.
  pose proof (Rle_0_sqr (d 0%nat)) as Hsq0.
  unfold Rsqr in Hsq, Hsq0.
  assert (Hm : 0 <= (S 0%nat 0%nat * S 1%nat 1%nat - S 0%nat 1%nat * S 0%nat 1%nat)
                    * (d 0%nat * d 0%nat))
    by (apply Rmult_le_pos; lra).
  lra.
Qed.

(** X14: when the innovation covariance [S] is symmetric positive definite
    (2 x 2), the statistic [NIS] is never negative, for any measurement and
    prediction. *)
Theorem NIS_nonnegative (z_measured z_predicted : VectorXd) (S : MatrixXd) :
  symmetric 2 S -> 0 < S 0%nat 0%nat -> 0 < det 2 S ->
  0 <= NIS 2 z_measured z_predicted S.
Proof.
  intros Hsym H00 Hdet. unfold NIS. apply inverse_2_quadratic_form; assumption.
Qed.

Lemma NIS_nonnegative_witness :
  symmetric 2 identity /\ 0 < identity 0%nat 0%nat /\ 0 < det 2 identity /\
  0 <= NIS 2 (comma_init [3; 4]) (comma_init [1; 1]) identity.
Proof.
  assert (H0 : 0 < identity 0%nat 0%nat) by (cbv [identity Nat.eqb]; lra).
  assert (Hd : 0 < det 2 identity).
  { cbv [det minor sum_n Nat.ltb Nat.leb identity Nat.eqb]. simpl. lra. }
  split; [apply identity_symmetric |]. split; [exact H0 |]. split; [exact Hd |].
  exact (NIS_nonnegative (comma_init [3; 4]) (comma_init [1; 1]) identity
           (identity_symmetric 2) H0 Hd).
Defined.

(** X15: a lidar update never increases a variance: for a symmetric [P]
    and a symmetric positive definite innovation covariance [S], every
    diagonal entry of the updated [P] is at most what it was. *)
Theorem UpdateLidar_variance_not_increased (z : VectorXd) (u : UKF) (r : nat) :
  constructed u ->
  symmetric (n_x_ u) (P_ u) ->
  0 < UpdateLidar_S u 0%nat 0%nat ->
  0 < det 2 (UpdateLidar_S u) ->
  (r < n_x_ u)%nat ->
  P_ (UpdateLidar z u) r r <= P_ u r r.
Proof.
  intros Hc. destruct (constructed_dims u Hc) as (Hn & _ & _). rewrite Hn.
  intros HP H00 Hdet Hr.
  rewrite UpdateLidar_P by assumption. cbv zeta.
  fold (UpdateLidar_S u).
  pose proof (inverse_2_quadratic_form (UpdateLidar_S u) (P_ u r)
                (lidar_S_symmetric u Hc HP) H00 Hdet) as Hq.
  unfold dot, vmmul in Hq. cbv [sum_n] in Hq.
  rewrite (HP 0%nat r), (HP 1%nat r) by lia.
  lra.
Qed.

Lemma UpdateLidar_variance_not_increased_witness :
  constructed estimate_3_4 /\
  P_ (UpdateLidar (comma_init [1; 1]) estimate_3_4) 0%nat 0%nat
  <= P_ estimate_3_4 0%nat 0%nat.
Proof.
  split; [exact constructed_estimate_3_4 |].
  assert (HS : forall r c, (r < 2)%nat -> (c < 2)%nat ->
             UpdateLidar_S estimate_3_4 r c = identity r c + R_laser_ estimate_3_4 r c).
  { intros r c Hr Hc. unfold UpdateLidar_S, madd.
    rewrite (lidar_HPHt estimate_3_4 r c constructed_estimate_3_4 Hr Hc). reflexivity. }
  assert (H00 : 0 < UpdateLidar_S estimate_3_4 0%nat 0%nat).
  { rewrite HS by lia. cbv [identity Nat.eqb]. cbn. lra. }
  assert (Hd : 0 < det 2 (UpdateLidar_S estimate_3_4)).
  { cbv [det minor sum_n Nat.ltb Nat.leb]. rewrite !HS by lia.
    cbv [identity Nat.eqb]. cbn. lra. }
  assert (Hr : (0 < n_x_ estimate_3_4)%nat) by (cbv; lia).
  exact (UpdateLidar_variance_not_increased (comma_init [1; 1]) estimate_3_4 0%nat
           constructed_estimate_3_4 (identity_symmetric _) H00 Hd Hr).
Defined.

(** ** Sigma points *)

(** The matrix [GenerateAugmentedSigmaPoints] fills, column by column, for
    any content of the matrix it is given. *)
Lemma GenerateAugmentedSigmaPoints_entries (u : UKF) (M : MatrixXd) (r : nat) :
  constructed u ->
  let X := GenerateAugmentedSigmaPoints u M in
  let x_aug := GenerateAugmentedSigmaPoints_x_aug u in
  let L := GenerateAugmentedSigmaPoints_L u in
  let s := sqrt (lambda_ u + INR (n_aug_ u)) in
  X r 0%nat = x_aug r /\
  forall i, (i < 7)%nat ->
    X r (i + 1)%nat = x_aug r + s * L r i /\
    X r (i + 1 + 7)%nat = x_aug r - s * L r i.
Proof.
  intros Hc. destruct (constructed_dims u Hc) as (Hn & Ha & _).
  cbv zeta.
  unfold GenerateAugmentedSigmaPoints, GenerateAugmentedSigmaPoints_x_aug,
    GenerateAugmentedSigmaPoints_L.
  change (let P_aug := mzero in
          let P_aug := set_topLeftCorner (n_x_ u) (n_x_ u) P_aug (P_ u) in
          let P_aug := mset P_aug (n_x_ u) (n_x_ u) (std_a_ u * std_a_ u) in
          mset P_aug (n_x_ u + 1) (n_x_ u + 1) (std_yawdd_ u * std_yawdd_ u))
    with (GenerateAugmentedSigmaPoints_P_aug u).
  cbv zeta. rewrite Ha.
  set (L := llt_matrixL 7 _). set (xa := for_range _ 7 _ _). set (s := sqrt _).
  split; [reflexivity |].
  intros i Hi.
  do 7 (destruct i as [| i]; [split; reflexivity |]). lia.
Qed.

Lemma GenerateAugmentedSigmaPoints_x_aug_entries (u : UKF) (r : nat) :
  constructed u -> (r < 7)%nat ->
  GenerateAugmentedSigmaPoints_x_aug u r = if Nat.ltb r 5 then x_ u r else 0.
Proof.
  intros Hc Hr. destruct (constructed_dims u Hc) as (Hn & Ha & _).
  unfold GenerateAugmentedSigmaPoints_x_aug. rewrite Hn, Ha.
  do 7 (destruct r as [| r]; [reflexivity |]). lia.
Qed.

Lemma spread_squared (u : UKF) :
  constructed u ->
  sqrt (lambda_ u + INR (n_aug_ u)) * sqrt (lambda_ u + INR (n_aug_ u)) = 5.
Proof.
  intros Hc. destruct (constructed_dims u Hc) as (_ & Ha & Hl).
  rewrite Ha, Hl. replace (-2 + INR 7) with 5 by (simpl; lra).
  apply sqrt_sqrt. lra.
Qed.

(** X9: the generated sigma points carry the augmented mean: column 0 is
    the mean (the state followed by two zeros), the other columns come in
    pairs mirrored about it, and the weighted sum of the 15 columns is the
    mean again, whatever the Cholesky factor. *)
Theorem sigma_points_reproduce_mean (u : UKF) (M : MatrixXd) (r : nat) :
  constructed u ->
  (r < n_aug_ u)%nat ->
  let X := GenerateAugmentedSigmaPoints u M in
  let x_aug := GenerateAugmentedSigmaPoints_x_aug u in
  x_aug r = (if Nat.ltb r (n_x_ u) then x_ u r else 0) /\
  X r 0%nat = x_aug r /\
  (forall i, (i < n_aug_ u)%nat ->
     X r (i + 1)%nat + X r (i + 1 + n_aug_ u)%nat = 2 * x_aug r) /\
  sum_n (n_sig u) (fun i => weights_ u i * X r i) = x_aug r.
Proof.
  intros Hc. destruct (constructed_dims u Hc) as (Hn & Ha & _).
  unfold n_sig. rewrite Ha, Hn. intros Hr. cbv zeta.
  destruct (GenerateAugmentedSigmaPoints_entries u M r Hc) as [H0 Hd].
  cbv zeta in H0, Hd.
  split; [apply GenerateAugmentedSigmaPoints_x_aug_entries; assumption |].
  split; [exact H0 |]. split.
  - intros i Hi. destruct (Hd i Hi) as [Hp Hm]. rewrite Hp, Hm. ring.
  - cbv [sum_n Nat.mul Nat.add].
    rewrite !(constructed_weights u) by (assumption || lia).
    cbv [Nat.eqb].
    destruct (Hd 0%nat ltac:(lia)) as [Hp0 Hm0].
    destruct (Hd 1%nat ltac:(lia)) as [Hp1 Hm1].
    destruct (Hd 2%nat ltac:(lia)) as [Hp2 Hm2].
    destruct (Hd 3%nat ltac:(lia)) as [Hp3 Hm3].
    destruct (Hd 4%nat ltac:(lia)) as [Hp4 Hm4].
    destruct (Hd 5%nat ltac:(lia)) as [Hp5 Hm5].
    destruct (Hd 6%nat ltac:(lia)) as [Hp6 Hm6].
    cbn [Nat.add] in *.
    rewrite H0, Hp0, Hm0, Hp1, Hm1, Hp2, Hm2, Hp3, Hm3, Hp4, Hm4, Hp5, Hm5, Hp6, Hm6.
    field.
Qed.

Lemma sigma_points_reproduce_mean_witness :
  constructed estimate_3_4 /\ (1 < n_aug_ estimate_3_4)%nat /\
  sum_n (n_sig estimate_3_4)
    (fun i => weights_ estimate_3_4 i
              * GenerateAugmentedSigmaPoints estimate_3_4 mzero 1%nat i)
  = GenerateAugmentedSigmaPoints_x_aug estimate_3_4 1%nat.
Proof.
  assert (Hr : (1 < n_aug_ estimate_3_4)%nat) by (cbv; lia).
  split; [exact constructed_estimate_3_4 |]. split; [exact Hr |].
  exact (proj2 (proj2 (proj2
           (sigma_points_reproduce_mean estimate_3_4 mzero 1%nat
              constructed_estimate_3_4 Hr)))).
Defined.

(** X10: the weighted outer products of the deviations of the sigma points
    from the augmented mean are exactly [L * Lt], for the factor [L] the
    points were generated from: the spread [sqrt(lambda_+n_aug_)] and the
    weights [1/(2*(lambda_+n_aug_))] cancel. *)
Theorem sigma_points_reproduce_L_Lt (u : UKF) (M : MatrixXd) (r c : nat) :
  constructed u ->
  (r < n_aug_ u)%nat -> (c < n_aug_ u)%nat ->
  let X := GenerateAugmentedSigmaPoints u M in
  let x_aug := GenerateAugmentedSigmaPoints_x_aug u in
  let L := GenerateAugmentedSigmaPoints_L u in
  sum_n (n_sig u) (fun i => weights_ u i * (X r i - x_aug r) * (X c i - x_aug c))
  = mmul (n_aug_ u) L (transpose L) r c.
Proof.
  intros Hc. destruct (constructed_dims u Hc) as (Hn & Ha & _).
  unfold n_sig. rewrite Ha. intros Hr Hcc. cbv zeta.
  destruct (GenerateAugmentedSigmaPoints_entries u M r Hc) as [Hr0 Hrd].
  destruct (GenerateAugmentedSigmaPoints_entries u M c Hc) as [Hc0 Hcd].
  cbv zeta in Hr0, Hrd, Hc0, Hcd.
  pose proof (spread_squared u Hc) as Hs. rewrite Ha in Hs, Hrd, Hcd.
  set (s := sqrt (lambda_ u + INR 7)) in *.
  set (L := GenerateAugmentedSigmaPoints_L u) in *.
  unfold mmul, transpose. cbv [sum_n Nat.mul Nat.add].
  rewrite !(constructed_weights u) by (assumption || lia).
  cbv [Nat.eqb].
  destruct (Hrd 0%nat ltac:(lia)) as [Rp0 Rm0].
  destruct (Hrd 1%nat ltac:(lia)) as [Rp1 Rm1].
  destruct (Hrd 2%nat ltac:(lia)) as [Rp2 Rm2].
  destruct (Hrd 3%nat ltac:(lia)) as [Rp3 Rm3].
  destruct (Hrd 4%nat ltac:(lia)) as [Rp4 Rm4].
  destruct (Hrd 5%nat ltac:(lia)) as [Rp5 Rm5].
  destruct (Hrd 6%nat ltac:(lia)) as [Rp6 Rm6].
  destruct (Hcd 0%nat ltac:(lia)) as [Cp0 Cm0].
  destruct (Hcd 1%nat ltac:(lia)) as [Cp1 Cm1].
  destruct (Hcd 2%nat ltac:(lia)) as [Cp2 Cm2].
  destruct (Hcd 3%nat ltac:(lia)) as [Cp3 Cm3].
  destruct (Hcd 4%nat ltac:(lia)) as [Cp4 Cm4].
  destruct (Hcd 5%nat ltac:(lia)) as [Cp5 Cm5].
  destruct (Hcd 6%nat ltac:(lia)) as [Cp6 Cm6].
  cbn [Nat.add] in *.
  rewrite Hr0, Rp0, Rm0, Rp1, Rm1, Rp2, Rm2, Rp3, Rm3, Rp4, Rm4, Rp5, Rm5, Rp6, Rm6.
  rewrite Hc0, Cp0, Cm0, Cp1, Cm1, Cp2, Cm2, Cp3, Cm3, Cp4, Cm4, Cp5, Cm5, Cp6, Cm6.
  match goal with |- _ = ?rhs =>
    transitivity (s * s / 5 * rhs); [field | rewrite Hs; field] end.
Qed.

Lemma sigma_points_reproduce_L_Lt_witness :
  constructed estimate_3_4 /\ (0 < n_aug_ estimate_3_4)%nat /\
  sum_n (n_sig estimate_3_4)
    (fun i => weights_ estimate_3_4 i
              * (GenerateAugmentedSigmaPoints estimate_3_4 mzero 0%nat i
                 - GenerateAugmentedSigmaPoints_x_aug estimate_3_4 0%nat)
              * (GenerateAugmentedSigmaPoints estimate_3_4 mzero 0%nat i
                 - GenerateAugmentedSigmaPoints_x_aug estimate_3_4 0%nat))
  = mmul (n_aug_ estimate_3_4) (GenerateAugmentedSigmaPoints_L estimate_3_4)
      (transpose (GenerateAugmentedSigmaPoints_L estimate_3_4)) 0%nat 0%nat.
Proof.
  assert (Hr : (0 < n_aug_ estimate_3_4)%nat) by (cbv; lia).
  split; [exact constructed_estimate_3_4 |]. split; [exact Hr |].
  exact (sigma_points_reproduce_L_Lt estimate_3_4 mzero 0%nat 0%nat
           constructed_estimate_3_4 Hr Hr).
Defined.

(** ** The cached sigma points *)

Lemma SigmaPointPrediction_body_rows (delta_t : R) (Xsig_aug : MatrixXd)
      (i : nat) (u : UKF) (r j : nat) :
  (5 <= r)%nat ->
  Xsig_pred_ (SigmaPointPrediction_body delta_t Xsig_aug i u) r j = Xsig_pred_ u r j.
Proof.
  intros Hr. unfold SigmaPointPrediction_body. cbn [Xsig_pred_ set_Xsig_pred_].
  unfold mset.
  do 5 (destruct r as [| r]; [lia |]). reflexivity.
Qed.

Lemma SigmaPointPrediction_body_written (delta_t : R) (Xsig_aug : MatrixXd)
      (i : nat) (u u' : UKF) (r : nat) :
  (r < 5)%nat ->
  Xsig_pred_ (SigmaPointPrediction_body delta_t Xsig_aug i u) r i
  = Xsig_pred_ (SigmaPointPrediction_body delta_t Xsig_aug i u') r i.
Proof.
  intros Hr. unfold SigmaPointPrediction_body. cbn [Xsig_pred_ set_Xsig_pred_].
  unfold mset. rewrite Nat.eqb_refl.
  do 5 (destruct r as [| r]; [reflexivity |]). lia.
Qed.

Lemma SigmaPointPrediction_loop (delta_t : R) (Xsig_aug : MatrixXd) (l : list nat)
      (u u0 : UKF) (r j : nat) :
  (r < 5)%nat ->
  Xsig_pred_ (fold_left (fun acc i => SigmaPointPrediction_body delta_t Xsig_aug i acc) l u) r j
  = if existsb (Nat.eqb j) l
    then Xsig_pred_ (SigmaPointPrediction_body delta_t Xsig_aug j u0) r j
    else Xsig_pred_ u r j.
Proof.
  intros Hr. revert u. induction l as [| i l IH]; intros u.
  - reflexivity.
  - cbn [fold_left existsb]. rewrite IH.
    destruct (existsb (Nat.eqb j) l).
    + rewrite orb_true_r. reflexivity.
    + rewrite orb_false_r. destruct (Nat.eqb j i) eqn:Hji.
      * apply Nat.eqb_eq in Hji. subst j.
        apply SigmaPointPrediction_body_written, Hr.
      * apply Nat.eqb_neq in Hji. apply SigmaPointPrediction_body_other, Hji.
Qed.

Lemma existsb_seq_false (j n : nat) : (n <= j)%nat -> existsb (Nat.eqb j) (seq 0 n) = false.
Proof.
  intros Hj. destruct (existsb (Nat.eqb j) (seq 0 n)) eqn:E; [| reflexivity].
  apply existsb_exists in E. destruct E as (k & Hk & Hjk).
  apply in_seq in Hk. apply Nat.eqb_eq in Hjk. lia.
Qed.

Lemma SigmaPointPrediction_loop_rows (delta_t : R) (Xsig_aug : MatrixXd) (l : list nat)
      (u : UKF) (r j : nat) :
  (5 <= r)%nat ->
  Xsig_pred_ (fold_left (fun acc i => SigmaPointPrediction_body delta_t Xsig_aug i acc) l u) r j
  = Xsig_pred_ u r j.
Proof.
  intros Hr. revert u. induction l as [| i l IH]; intros u.
  - reflexivity.
  - cbn [fold_left]. rewrite IH. apply SigmaPointPrediction_body_rows, Hr.
Qed.

(** X11: [SigmaPointPrediction] rewrites the whole 5 x (2*n_aug_+1) block of
    the cache and nothing outside it: inside the block the result does not
    depend on what the cache held (column [j] is what one pass of the loop
    body for [j] writes), outside the block every entry is as before. *)
Theorem SigmaPointPrediction_rewrites_cache (delta_t : R) (Xsig_aug : MatrixXd)
        (u : UKF) (r j : nat) :
  ((r < 5)%nat -> (j < n_sig u)%nat ->
   forall u0 : UKF,
     Xsig_pred_ (SigmaPointPrediction delta_t Xsig_aug u) r j
     = Xsig_pred_ (SigmaPointPrediction_body delta_t Xsig_aug j u0) r j) /\
  ((5 <= r)%nat \/ (n_sig u <= j)%nat ->
   Xsig_pred_ (SigmaPointPrediction delta_t Xsig_aug u) r j = Xsig_pred_ u r j).
Proof.
  unfold SigmaPointPrediction, for_range, n_sig. rewrite Nat.sub_0_r. split.
  - intros Hr Hj u0.
    rewrite (SigmaPointPrediction_loop delta_t Xsig_aug _ u u0 r j Hr).
    rewrite existsb_seq by exact Hj. reflexivity.
  - intros [Hr | Hj].
    + apply SigmaPointPrediction_loop_rows, Hr.
    + destruct (Nat.lt_ge_cases r 5) as [Hr | Hr].
      * rewrite (SigmaPointPrediction_loop delta_t Xsig_aug _ u u r j Hr).
        rewrite existsb_seq_false by exact Hj. reflexivity.
      * apply SigmaPointPrediction_loop_rows, Hr.
Qed.

Lemma SigmaPointPrediction_rewrites_cache_witness :
  ((5 <= 6)%nat \/ (n_sig fresh <= 0)%nat) /\
  Xsig_pred_ (SigmaPointPrediction 1 mzero fresh) 6%nat 0%nat = Xsig_pred_ fresh 6%nat 0%nat.
Proof.
  assert (H : (5 <= 6)%nat \/ (n_sig fresh <= 0)%nat) by (left; lia).
  split; [exact H |].
  exact (proj2 (SigmaPointPrediction_rewrites_cache 1 mzero fresh 6%nat 0%nat) H).
Defined.

(** ** The predicted mean and covariance *)

Lemma covariance_loop (l : list nat) (u : UKF) (r c : nat) :
  P_ (fold_left
        (fun acc i =>
           let x_diff := vsub (col (Xsig_pred_ acc) i) (x_ acc) in
           let x_diff := vset x_diff 3 (while_above_PI (x_diff 3%nat)) in
           let x_diff := vset x_diff 3 (while_below_minus_PI (x_diff 3%nat)) in
           set_P_ acc (madd (P_ acc) (outer (vscale (weights_ acc i) x_diff) x_diff)))
        l u) r c
  = fold_left
      (fun a i => a + weights_ u i
                      * angle_diff 3 (col (Xsig_pred_ u) i) (x_ u) r
                      * angle_diff 3 (col (Xsig_pred_ u) i) (x_ u) c)
      l (P_ u r c).
Proof.
  revert u. induction l as [| i l IH]; intros u.
  - reflexivity.
  - cbn [fold_left]. rewrite IH. reflexivity.
Qed.

Lemma mean_loop_keeps (u : UKF) (n : nat) :
  let s := for_range 0 n
             (fun i u => set_x_ u (vadd (x_ u) (vscale (weights_ u i) (col (Xsig_pred_ u) i))))
             (set_x_ u vzero) in
  weights_ s = weights_ u /\ Xsig_pred_ s = Xsig_pred_ u /\ n_aug_ s = n_aug_ u.
Proof.
  cbv zeta.
  apply (for_range_preserves
           (fun s => weights_ s = weights_ u /\ Xsig_pred_ s = Xsig_pred_ u
                     /\ n_aug_ s = n_aug_ u)).
  - intros i s Hs. exact Hs.
  - repeat split.
Qed.

Lemma PredictMeanAndCovariance_covariance (u : UKF) (r c : nat) :
  let u' := PredictMeanAndCovariance u in
  P_ u' r c
  = sum_n (n_sig u)
      (fun i => weights_ u i
                * angle_diff 3 (col (Xsig_pred_ u) i) (x_ u') r
                * angle_diff 3 (col (Xsig_pred_ u) i) (x_ u') c).
Proof.
  cbv zeta.
  assert (Hx : x_ (PredictMeanAndCovariance u)
               = x_ (for_range 0 (2 * n_aug_ u + 1)
                       (fun i u => set_x_ u (vadd (x_ u)
                                     (vscale (weights_ u i) (col (Xsig_pred_ u) i))))
                       (set_x_ u vzero))).
  { unfold PredictMeanAndCovariance.
    match goal with
    | |- x_ (for_range 0 ?n ?body (set_P_ ?s mzero)) = _ =>
        apply (for_range_preserves (fun t => x_ t = x_ s));
          [intros i t Ht; exact Ht | reflexivity]
    end. }
  rewrite Hx. clear Hx.
  destruct (mean_loop_keeps u (2 * n_aug_ u + 1)) as (Hw & HX & Hn).
  cbv zeta in Hw, HX, Hn.
  unfold PredictMeanAndCovariance. cbn [n_aug_ set_x_].
  set (s := for_range 0 (2 * n_aug_ u + 1) _ (set_x_ u vzero)) in *.
  unfold for_range at 1. rewrite Nat.sub_0_r, covariance_loop.
  cbn [P_ set_P_ weights_ Xsig_pred_ x_]. unfold mzero at 1.
  rewrite Hw, HX, fold_left_sum, fold_left_seq_sum_n. unfold n_sig. ring.
Qed.

(** X12: after [Prediction] the stored mean and covariance are the weighted
    statistics of the cached sigma points, which the radar update reads
    again: [x] is the weighted sum of the cached columns, and [P] the
    weighted sum of the outer products of their deviations from [x], the
    heading deviation normalized; this [P] is symmetric whatever [P] was. *)
Theorem Prediction_statistics_of_cache (delta_t : R) (u : UKF) :
  let u' := Prediction delta_t u in
  (forall r, x_ u' r = sum_n (n_sig u) (fun i => weights_ u i * Xsig_pred_ u' r i)) /\
  (forall r c,
      P_ u' r c
      = sum_n (n_sig u)
          (fun i => weights_ u i
                    * angle_diff 3 (col (Xsig_pred_ u') i) (x_ u') r
                    * angle_diff 3 (col (Xsig_pred_ u') i) (x_ u') c)) /\
  (forall r c, P_ u' r c = P_ u' c r) /\
  (forall i, - PI <= angle_diff 3 (col (Xsig_pred_ u') i) (x_ u') 3%nat <= PI).
Proof.
  cbv zeta. unfold Prediction.
  set (v := SigmaPointPrediction delta_t (GenerateAugmentedSigmaPoints u mzero) u).
  destruct (SigmaPointPrediction_keeps delta_t (GenerateAugmentedSigmaPoints u mzero) u)
    as [Hw Hs].
  fold v in Hw, Hs.
  destruct (other_fields_PredictMeanAndCovariance v) as [_ HX].
  rewrite HX. split; [| split; [| split]].
  - intros r. rewrite PredictMeanAndCovariance_mean, Hs, Hw. reflexivity.
  - intros r c. rewrite PredictMeanAndCovariance_covariance, Hs, Hw. reflexivity.
  - intros r c. apply (PredictMeanAndCovariance_symmetric v (S (Nat.max r c))); lia.
  - intros i. unfold angle_diff. cbv zeta.
    destruct (normalized_entry (vsub (col (Xsig_pred_ v) i) (x_ (PredictMeanAndCovariance v))) 3)
      as [H3 _].
    cbv zeta in H3. rewrite H3. apply normalize_angle_bounds.
Qed.

(** ** Radar update at the predicted measurement *)

Lemma radar_innovation_zero (z z_pred : VectorXd) :
  (forall i, (i < 3)%nat -> z i = z_pred i) ->
  - PI <= z 1%nat <= PI ->
  let z1 := vset z 1 (while_above_PI (z 1%nat)) in
  let z2 := vset z1 1 (while_below_minus_PI (z1 1%nat)) in
  let z_diff := vsub z2 z_pred in
  let z_diff1 := vset z_diff 1 (while_above_PI (z_diff 1%nat)) in
  let z_diff2 := vset z_diff1 1 (while_below_minus_PI (z_diff1 1%nat)) in
  forall l, (l < 3)%nat -> z_diff l = 0 /\ z_diff2 l = 0.
Proof.
  intros Hz Hrange. cbv zeta. intros l Hl.
  destruct (normalized_entry z 1) as [H1 Hrest]. cbv zeta in H1, Hrest.
  assert (Hd : vsub (vset (vset z 1 (while_above_PI (z 1%nat))) 1
                       (while_below_minus_PI
                          (vset z 1 (while_above_PI (z 1%nat)) 1%nat))) z_pred l = 0).
  { unfold vsub at 1. destruct (Nat.eq_dec l 1) as [-> | Hne].
    - rewrite H1, (normalize_angle_fixed _ Hrange), (Hz 1%nat) by lia. ring.
    - rewrite (Hrest l Hne), (Hz l Hl). ring. }
  split; [exact Hd |].
  match goal with
  | |- vset (vset ?d 1 _) 1 _ l = 0 =>
      destruct (normalized_entry d 1) as [G1 Grest]; cbv zeta in G1, Grest;
      destruct (Nat.eq_dec l 1) as [-> | Hne];
      [ rewrite G1, Hd; apply normalize_angle_fixed; pose proof PI_RGT_0; lra
      | rewrite (Grest l Hne); exact Hd ]
  end.
Qed.

Lemma zero_innovation_keeps_mean (n : nat) (x : VectorXd) (K : MatrixXd)
      (innovation : VectorXd) (r : nat) :
  (forall l, (l < n)%nat -> innovation l = 0) ->
  vadd x (mvmul n K innovation) r = x r.
Proof.
  intros H0. unfold vadd, mvmul.
  rewrite sum_n_zero; [ring |].
  intros l Hl. cbv beta. rewrite (H0 l Hl). ring.
Qed.

Lemma zero_innovation_NIS (n : nat) (z z_pred : VectorXd) (S : MatrixXd) :
  (forall l, (l < n)%nat -> vsub z z_pred l = 0) ->
  NIS n z z_pred S = 0.
Proof.
  intros H0. unfold NIS, dot. apply sum_n_zero.
  intros l Hl. cbv beta. rewrite (H0 l Hl). ring.
Qed.

(** X16: when the radar measurement equals the predicted measurement (the
    weighted mean of the transformed sigma points) and its bearing lies in
    [[- PI, PI]], the radar update leaves [x] unchanged and stores a radar
    NIS of 0. *)
Theorem UpdateRadar_at_prediction (z : VectorXd) (u : UKF) :
  (forall i, (i < 3)%nat -> z i = UpdateRadar_z_pred u i) ->
  - PI <= z 1%nat <= PI ->
  (forall r, x_ (fst (UpdateRadar z u)) r = x_ u r) /\
  NIS_radar_ (fst (UpdateRadar z u)) = 0.
Proof.
  intros Hz Hrange.
  pose proof (radar_innovation_zero z (UpdateRadar_z_pred u) Hz Hrange) as H0.
  cbv zeta in H0.
  unfold UpdateRadar.
  cbn [fst x_ set_x_ set_P_ set_NIS_radar_ NIS_radar_ n_aug_ weights_ Xsig_pred_].
  cbv zeta. split.
  - intros r. apply zero_innovation_keeps_mean.
    intros l Hl. exact (proj2 (H0 l Hl)).
  - apply zero_innovation_NIS.
    intros l Hl. exact (proj1 (H0 l Hl)).
Qed.

Lemma UpdateRadar_at_prediction_witness :
  - PI <= UpdateRadar_z_pred estimate_3_4 1%nat <= PI /\
  NIS_radar_ (fst (UpdateRadar (UpdateRadar_z_pred estimate_3_4) estimate_3_4)) = 0.
Proof.
  assert (Hz : forall i, (i < 3)%nat ->
                 UpdateRadar_z_pred estimate_3_4 i = UpdateRadar_z_pred estimate_3_4 i)
    by (intros; reflexivity).
  assert (Hr : - PI <= UpdateRadar_z_pred estimate_3_4 1%nat <= PI).
  { assert (E : UpdateRadar_z_pred estimate_3_4 1%nat = 0).
    { unfold UpdateRadar_z_pred, UpdateRadar_Zsig.
      change (n_aug_ estimate_3_4) with 7%nat.
      change (Xsig_pred_ estimate_3_4) with mzero.
      cbv [for_range fold_left seq Nat.sub Nat.add Nat.mul vadd vscale col vzero
           UpdateRadar_model mset mzero Nat.eqb andb].
      unfold atan2. destruct (Rlt_dec 0 0) as [H | _]; [lra |]. ring. }
    rewrite E. pose proof PI_RGT_0. lra. }
  split; [exact Hr |].
  exact (proj2 (UpdateRadar_at_prediction (UpdateRadar_z_pred estimate_3_4) estimate_3_4 Hz Hr)).
Defined.

(** ** How far a sigma point moves *)

Lemma sin_sqr_le (x : R) : sin x * sin x <= x * x.
Proof.
  assert (Hpos : forall y, 0 < y -> - y <= sin y <= y).
  { intros y Hy. split.
    - destruct (Rlt_dec y 1) as [H1 | H1].
      + pose proof PI2_3_2. pose proof (sin_gt_0 y Hy ltac:(lra)). lra.
      + pose proof (SIN_bound y). lra.
    - left. apply sin_lt_x, Hy. }
  destruct (Rtotal_order x 0) as [Hx | [Hx | Hx]].
  - pose proof (Hpos (- x) ltac:(lra)) as H. rewrite sin_neg in H. nra.
  - rewrite Hx, sin_0. lra.
  - pose proof (Hpos x Hx). nra.
Qed.

Lemma chord_identity (a b : R) :
  (sin (a + b) - sin a) * (sin (a + b) - sin a)
  + (cos a - cos (a + b)) * (cos a - cos (a + b))
  = 4 * (sin (b / 2) * sin (b / 2)).
Proof.
  pose proof (cos_minus (a + b) a) as Hm.
  replace (a + b - a) with (2 * (b / 2)) in Hm by field.
  rewrite cos_2a_sin in Hm.
  pose proof (sin2_cos2 a) as Ha. pose proof (sin2_cos2 (a + b)) as Hab.
  unfold Rsqr in Ha, Hab. lra.
Qed.

(** X17: without acceleration noise ([nu_a = 0]) the body of
    [SigmaPointPrediction] never moves the position of a sigma point
    farther than speed times time, in the turning branch (a chord of the
    turning circle) as in the straight-line branch (where it is exactly
    that far). *)
Theorem SigmaPointPrediction_displacement (delta_t : R) (Xsig_aug : MatrixXd)
        (i : nat) (u : UKF) :
  Xsig_aug 5%nat i = 0 ->
  let u' := SigmaPointPrediction_body delta_t Xsig_aug i u in
  let dx := Xsig_pred_ u' 0%nat i - Xsig_aug 0%nat i in
  let dy := Xsig_pred_ u' 1%nat i - Xsig_aug 1%nat i in
  let v := Xsig_aug 2%nat i in
  dx * dx + dy * dy <= (v * delta_t) * (v * delta_t) /\
  (Rabs (Xsig_aug 4%nat i) <= 0.001 ->
   dx * dx + dy * dy = (v * delta_t) * (v * delta_t)).
Proof.
  intros Hnu. cbv zeta.
  unfold SigmaPointPrediction_body. cbn [Xsig_pred_ set_Xsig_pred_].
  unfold mset. cbn [Nat.eqb andb]. rewrite Nat.eqb_refl, Hnu.
  set (p_x := Xsig_aug 0%nat i). set (p_y := Xsig_aug 1%nat i).
  set (v := Xsig_aug 2%nat i). set (yaw := Xsig_aug 3%nat i).
  set (yawd := Xsig_aug 4%nat i).
  pose proof (sin2_cos2 yaw) as Hsc. unfold Rsqr in Hsc.
  destruct (Rgt_dec (Rabs yawd) 0.001) as [Hgt | Hle].
  - assert (Hnz : yawd <> 0)
      by (apply (Rabs_gt_nonzero _ 0.001); [lra | exact Hgt]).
    split; [| intros Hsmall; lra].
    pose proof (chord_identity yaw (yawd * delta_t)) as Hch.
    pose proof (sin_sqr_le (yawd * delta_t / 2)) as Hsin.
    set (s1 := sin (yaw + yawd * delta_t)) in *.
    set (c1 := cos (yaw + yawd * delta_t)) in *.
    set (h := sin (yawd * delta_t / 2)) in *.
    replace ((p_x + v / yawd * (s1 - sin yaw)
              + 0.5 * 0 * (delta_t * delta_t) * cos yaw - p_x)
             * (p_x + v / yawd * (s1 - sin yaw)
                + 0.5 * 0 * (delta_t * delta_t) * cos yaw - p_x)
             + (p_y + v / yawd * (cos yaw - c1)
                + 0.5 * 0 * (delta_t * delta_t) * sin yaw - p_y)
               * (p_y + v / yawd * (cos yaw - c1)
                  + 0.5 * 0 * (delta_t * delta_t) * sin yaw - p_y))
      with ((v / yawd) * (v / yawd)
            * ((s1 - sin yaw) * (s1 - sin yaw) + (cos yaw - c1) * (cos yaw - c1)))
      by ring.
    rewrite Hch.
    replace (v * delta_t * (v * delta_t))
      with ((v / yawd) * (v / yawd)
            * (4 * (yawd * delta_t / 2 * (yawd * delta_t / 2))))
      by (field; exact Hnz).
    apply Rmult_le_compat_l; [nra |]. lra.
  - assert (E : (p_x + v * delta_t * cos yaw
                 + 0.5 * 0 * (delta_t * delta_t) * cos yaw - p_x)
                * (p_x + v * delta_t * cos yaw
                   + 0.5 * 0 * (delta_t * delta_t) * cos yaw - p_x)
                + (p_y + v * delta_t * sin yaw
                   + 0.5 * 0 * (delta_t * delta_t) * sin yaw - p_y)
                  * (p_y + v * delta_t * sin yaw
                     + 0.5 * 0 * (delta_t * delta_t) * sin yaw - p_y)
                = v * delta_t * (v * delta_t) * (sin yaw * sin yaw + cos yaw * cos yaw))
      by ring.
    rewrite Hsc, Rmult_1_r in E.
    split; [rewrite E; lra | intros _; exact E].
Qed.

Lemma SigmaPointPrediction_displacement_witness :
  mzero 5%nat 0%nat = 0 /\
  (Xsig_pred_ (SigmaPointPrediction_body 1 mzero 0 fresh) 0%nat 0%nat - mzero 0%nat 0%nat)
  * (Xsig_pred_ (SigmaPointPrediction_body 1 mzero 0 fresh) 0%nat 0%nat - mzero 0%nat 0%nat)
  + (Xsig_pred_ (SigmaPointPrediction_body 1 mzero 0 fresh) 1%nat 0%nat - mzero 1%nat 0%nat)
    * (Xsig_pred_ (SigmaPointPrediction_body 1 mzero 0 fresh) 1%nat 0%nat - mzero 1%nat 0%nat)
  <= (mzero 2%nat 0%nat * 1) * (mzero 2%nat 0%nat * 1).
Proof.
  split; [reflexivity |].
  exact (proj1 (SigmaPointPrediction_displacement 1 mzero 0%nat fresh eq_refl)).
Defined.

(** ** Measurements that trigger no update *)

(** X18: for an initialized, constructed filter, a measurement that
    carries the stored timestamp and triggers no update (unknown kind, or a
    disabled sensor) leaves the state mean where it was: the elapsed time is
    zero and the prediction over it reproduces the mean. *)
Theorem same_time_measurement_keeps_mean {lm : Libm} (m : MeasurementPackage) (u : UKF) (r : nat) :
  constructed u ->
  is_initialized_ u = true ->
  timestamp_ m = time_us_ u ->
  sensor_type_ m = OTHER \/
  (sensor_type_ m = LASER /\ use_laser_ u = false) \/
  (sensor_type_ m = RADAR /\ use_radar_ u = false) ->
  (r < n_x_ u)%nat ->
  x_ (fst (ProcessMeasurement m u)) r = x_ u r.
Proof.
  intros Hc Hu Ht Hkind Hr.
  rewrite (ProcessMeasurement_initialized m u Hu). cbv zeta.
  destruct (use_flags_Prediction (to_float (IZR (timestamp_ m - time_us_ u) / 1000000))
              (set_time_us_ u (timestamp_ m))) as [Hl Hrad].
  cbn [use_laser_ use_radar_ set_time_us_] in Hl, Hrad.
  assert (Hmean : x_ (Prediction (to_float (IZR (timestamp_ m - time_us_ u) / 1000000))
                        (set_time_us_ u (timestamp_ m))) r = x_ u r).
  { rewrite Ht, Z.sub_diag.
    replace (IZR 0 / 1000000) with 0 by (simpl; field).
    rewrite to_float_0.
    apply (Prediction_at_0_mean (set_time_us_ u (time_us_ u)) r).
    - apply (constructed_parameters u); [reflexivity | exact Hc].
    - exact Hr. }
  destruct Hkind as [Hm | [[Hm Hf] | [Hm Hf]]]; rewrite Hm.
  - exact Hmean.
  - rewrite Hl, Hf. exact Hmean.
  - rewrite Hrad, Hf. exact Hmean.
Qed.

Lemma same_time_measurement_keeps_mean_witness :
  constructed tracking /\ is_initialized_ tracking = true /\
  timestamp_ (other_pkg 0) = time_us_ tracking /\
  x_ (fst (ProcessMeasurement (lm := libm32) (other_pkg 0) tracking)) 0%nat = x_ tracking 0%nat.
Proof.
  assert (Hc : constructed tracking)
    by (apply (constructed_ProcessMeasurement (lm := libm32)), constructed_UKF_UKF).
  assert (Ht : timestamp_ (other_pkg 0) = time_us_ tracking)
    by (symmetry; exact (proj2 tracking_initialized)).
  assert (Hr : (0 < n_x_ tracking)%nat).
  { destruct (constructed_dims tracking Hc) as (Hn & _ & _). rewrite Hn. lia. }
  split; [exact Hc |]. split; [exact (proj1 tracking_initialized) |].
  split; [exact Ht |].
  exact (same_time_measurement_keeps_mean (lm := libm32) (other_pkg 0) tracking 0%nat Hc
           (proj1 tracking_initialized) Ht (or_introl eq_refl) Hr).
Defined.
